(** * IR-DA: frequency ranking and TF-IDF retrieval

    A shallow embedding of [src/text_processing/freq_models.py],
    [src/text_processing/freq_counter.py], [src/text_processing/freq_utils.py]
    and [src/info_retrieval/retrieval.py], with the properties of the
    specification stated and settled against it.

    Conventions of the embedding:
    - a Python [str] is a [string] holding its UTF-8 bytes: the bytewise
      order of UTF-8 is the code-point order Python compares strings by;
    - a Python [int] is a [Z]; a Python [float] is a primitive float;
    - a method that assigns to [self] returns the new state of [self];
    - a call that can raise returns a [result]. *)

From Stdlib Require Import String Ascii ZArith NArith List Bool Lia.
From Stdlib Require Import Sorting.Sorted Sorting.Permutation.
From Stdlib Require Import DecimalString.
From Stdlib Require DecimalPos.
From Stdlib Require Import Floats.PrimFloat.
From Stdlib Require Uint63 Floats.SpecFloat Floats.FloatAxioms Floats.FloatOps.
Import ListNotations.

Local Open Scope string_scope.
Local Open Scope Z_scope.

(** ** Exceptions *)

Inductive exn : Type :=
| ValueError (msg : string)
| TypeError (msg : string)
| IndexError (msg : string)
| ZeroDivisionError (msg : string)
| OverflowError (msg : string).

Inductive result (A : Type) : Type :=
| Ok (a : A)
| Raise (e : exn).

Arguments Ok {A} a.
Arguments Raise {A} e.

Definition bind {A B : Type} (c : result A) (k : A -> result B) : result B :=
  match c with
  | Ok a => k a
  | Raise e => Raise e
  end.

Notation "x <- c ;; k" := (bind c (fun x => k))
  (at level 61, c at next level, right associativity).

(** [for x in xs: acc = body(acc, x)], where the body can raise. *)
Fixpoint for_each {A S : Type} (body : S -> A -> result S) (xs : list A) (acc : S)
  : result S :=
  match xs with
  | [] => Ok acc
  | x :: rest => acc' <- body acc x ;; for_each body rest acc'
  end.

(** ** Values held in the slots of a pair

    The tokenizer produces [str] tokens; the pair classes also accept [None]
    and, generically, values of another type, for which [int] stands. *)

Inductive value : Type :=
| VNone
| VStr (s : string)
| VInt (z : Z).

Inductive pytype : Type :=
| T_NoneType | T_str | T_int | T_Pair | T_TwoGram | T_Frequency.

Definition pytype_eqb (a b : pytype) : bool :=
  match a, b with
  | T_NoneType, T_NoneType | T_str, T_str | T_int, T_int
  | T_Pair, T_Pair | T_TwoGram, T_TwoGram | T_Frequency, T_Frequency => true
  | _, _ => false
  end.

(** [class TwoGram(Pair)] is the only subclass relation of the program. *)
Definition issubclass (c d : pytype) : bool :=
  pytype_eqb c d ||
  match c, d with
  | T_TwoGram, T_Pair => true
  | _, _ => false
  end.

Definition type_of_value (v : value) : pytype :=
  match v with
  | VNone => T_NoneType
  | VStr _ => T_str
  | VInt _ => T_int
  end.

Definition is_None (v : value) : bool :=
  match v with VNone => true | _ => false end.

(** [v == w] on slot values: [str] and [int] compare within their own type,
    [None] equals only itself, and operands of different types are unequal. *)
Definition value_eq (v w : value) : bool :=
  match v, w with
  | VNone, VNone => true
  | VStr a, VStr b => String.eqb a b
  | VInt a, VInt b => Z.eqb a b
  | _, _ => false
  end.

(** [type(v).__name__]. *)
Definition type_name (c : pytype) : string :=
  match c with
  | T_NoneType => "NoneType"
  | T_str => "str"
  | T_int => "int"
  | T_Pair => "Pair"
  | T_TwoGram => "TwoGram"
  | T_Frequency => "Frequency"
  end.

(** The error of an order comparison that neither operand supports: its
    message names the operator and the types of the left and of the right
    operand, in this order. *)
Definition not_supported (op : string) (left right : pytype) : exn :=
  TypeError ("'" ++ op ++ "' not supported between instances of '"
                 ++ type_name left ++ "' and '" ++ type_name right ++ "'").

(** [v < w] on slot values: defined within [str] and within [int]; Python
    raises [TypeError] for any other combination. *)
Definition value_lt (v w : value) : result bool :=
  match v, w with
  | VStr a, VStr b => Ok (String.ltb a b)
  | VInt a, VInt b => Ok (Z.ltb a b)
  | _, _ => Raise (not_supported "<" (type_of_value v) (type_of_value w))
  end.

(** [str(n)] for an [int]. *)
Definition str_of_int (n : Z) : string :=
  NilZero.string_of_int (Z.to_int n).

(** [str(v)]. *)
Definition str_of_value (v : value) : string :=
  match v with
  | VNone => "None"
  | VStr s => s
  | VInt z => str_of_int z
  end.

(** ** [class Pair] and [class TwoGram(Pair)]

    An instance of either class is its two attributes; the class of an
    instance is recorded where the instance is used as an object
    ([OPair] or [OTwoGram] below). *)

Record Pair : Type := mkPair { _object1 : value; _object2 : value }.

Definition TwoGram : Type := Pair.

(** The subject of a [Frequency] once its constructor has accepted it. *)
Inductive subject : Type :=
| SStr (s : string)
| STwoGram (g : TwoGram).

Record Frequency : Type := mkFrequency { _token : subject; _freq : Z }.

(** The objects the methods below can be handed as [other] or as an argument. *)
Inductive pyobj : Type :=
| ONone
| OStr (s : string)
| OInt (z : Z)
| OPair (p : Pair)
| OTwoGram (g : TwoGram)
| OFrequency (f : Frequency).

Definition type_of (o : pyobj) : pytype :=
  match o with
  | ONone => T_NoneType
  | OStr _ => T_str
  | OInt _ => T_int
  | OPair _ => T_Pair
  | OTwoGram _ => T_TwoGram
  | OFrequency _ => T_Frequency
  end.

Definition isinstance (o : pyobj) (c : pytype) : bool :=
  issubclass (type_of o) c.

Definition obj_of_value (v : value) : pyobj :=
  match v with
  | VNone => ONone
  | VStr s => OStr s
  | VInt z => OInt z
  end.

Definition obj_of_subject (t : subject) : pyobj :=
  match t with
  | SStr s => OStr s
  | STwoGram g => OTwoGram g
  end.

(** The attributes [_object1], [_object2] of an object that has them. *)
Definition pair_attrs (o : pyobj) : option Pair :=
  match o with
  | OPair p => Some p
  | OTwoGram g => Some g
  | _ => None
  end.

Module Pair.

Definition __init__ (o1 o2 : value) : Pair := mkPair o1 o2.

Definition set_object1 (self : Pair) (o1 : value) : Pair :=
  mkPair o1 (_object2 self).

Definition set_object2 (self : Pair) (o2 : value) : Pair :=
  mkPair (_object1 self) o2.

Definition __eq__ (self : Pair) (other : pyobj) : bool :=
  if negb (isinstance other T_Pair) then false
  else match pair_attrs other with
       | Some o => value_eq (_object1 self) (_object1 o)
                   && value_eq (_object2 self) (_object2 o)
       | None => false
       end.

(** [__str__] assigns to the attributes of [self] before it renders them:
    the result is the rendered text and the new state of [self]. *)
Definition __str__ (self : Pair) : string * Pair :=
  let self1 :=
    if value_eq (_object1 self) VNone
    then mkPair (VStr "None") (_object2 self) else self in
  let self2 :=
    if value_eq (_object2 self1) VNone
    then mkPair (_object1 self1) (VStr "None") else self1 in
  ("<" ++ str_of_value (_object1 self2) ++ ":"
       ++ str_of_value (_object2 self2) ++ ">", self2).

End Pair.

(** [_compare_tokens(t1, t2)]. *)
Definition _compare_tokens (t1 t2 : value) : result Z :=
  if is_None t1 && is_None t2 then Ok 0
  else if is_None t1 then Ok (-1)
  else if is_None t2 then Ok 1
  else if value_eq t1 t2 then Ok 0
  else lt <- value_lt t1 t2 ;; Ok (if lt then -1 else 1).

Module TwoGram.

Definition type_error : exn := ValueError "Two tokens must be of the same type.".

Definition __init__ (token1 token2 : value) : result TwoGram :=
  if is_None token1 || is_None token2
     || pytype_eqb (type_of_value token1) (type_of_value token2)
  then Ok (Pair.__init__ token1 token2)
  else Raise type_error.

Definition set_object1 (self : TwoGram) (o1 : value) : result TwoGram :=
  if is_None o1 || pytype_eqb (type_of_value (_object2 self)) (type_of_value o1)
  then Ok (mkPair o1 (_object2 self))
  else Raise type_error.

Definition set_object2 (self : TwoGram) (o2 : value) : result TwoGram :=
  if is_None o2 || pytype_eqb (type_of_value (_object1 self)) (type_of_value o2)
  then Ok (mkPair (_object1 self) o2)
  else Raise type_error.

Definition __eq__ (self : TwoGram) (other : pyobj) : bool :=
  match other with
  | OTwoGram o => value_eq (_object1 self) (_object1 o)
                  && value_eq (_object2 self) (_object2 o)
  | _ => false
  end.

Definition __ne__ (self : TwoGram) (other : pyobj) : bool :=
  negb (__eq__ self other).

Definition _compare_token_pairs (self : TwoGram) (other : pyobj) : result Z :=
  match other with
  | OTwoGram o =>
      first_tokens <- _compare_tokens (_object1 self) (_object1 o) ;;
      if negb (first_tokens =? 0) then Ok first_tokens
      else _compare_tokens (_object2 self) (_object2 o)
  | _ => Ok 1
  end.

Definition __lt__ (self : TwoGram) (other : pyobj) : result bool :=
  c <- _compare_token_pairs self other ;; Ok (c =? -1).

Definition __le__ (self : TwoGram) (other : pyobj) : result bool :=
  c <- _compare_token_pairs self other ;; Ok (c <=? 0).

Definition __gt__ (self : TwoGram) (other : pyobj) : result bool :=
  c <- _compare_token_pairs self other ;; Ok (c =? 1).

Definition __ge__ (self : TwoGram) (other : pyobj) : result bool :=
  c <- _compare_token_pairs self other ;; Ok (c >=? 0).

End TwoGram.

(** ** Rich comparison of the subjects of two [Frequency] objects

    [Frequency._compare_frequency] applies [==] and [<] to two subjects, each a
    [str] or a [TwoGram].  For two [str] the built-in comparison answers.  When
    the left operand is a [TwoGram] its own method answers.  When the left
    operand is a [str] and the right one a [TwoGram], [str.__eq__] and
    [str.__lt__] return [NotImplemented] and Python calls the reflected method
    of the right operand, [TwoGram.__eq__] and [TwoGram.__gt__].
    ([subject_operators_dispatch] below checks these two definitions against
    the general dispatch [do_richcompare].) *)

Definition subject_eq (a b : subject) : bool :=
  match a, b with
  | SStr x, SStr y => String.eqb x y
  | SStr x, STwoGram h => TwoGram.__eq__ h (OStr x)
  | STwoGram g, _ => TwoGram.__eq__ g (obj_of_subject b)
  end.

Definition subject_lt (a b : subject) : result bool :=
  match a, b with
  | SStr x, SStr y => Ok (String.ltb x y)
  | SStr x, STwoGram h => TwoGram.__gt__ h (OStr x)
  | STwoGram g, _ => TwoGram.__lt__ g (obj_of_subject b)
  end.

(** ** [class Frequency] *)

Module Frequency.

Definition subject_error : exn :=
  ValueError "A token must either be of type str or TwoGram.".

Definition count_error : exn :=
  ValueError "Frequency must be an integer > 0".

(** [Frequency(token, freq)]: the attributes are assigned first and checked
    afterwards; when a check raises, the constructor call yields no object. *)
Definition __init__ (token freq : pyobj) : result Frequency :=
  if negb (isinstance token T_str || isinstance token T_TwoGram)
  then Raise subject_error
  else
    match freq with
    | OInt n =>
        if n <? 0 then Raise count_error
        else match token with
             | OStr s => Ok (mkFrequency (SStr s) n)
             | OTwoGram g => Ok (mkFrequency (STwoGram g) n)
             | _ => Raise subject_error
             end
    | _ => Raise count_error
    end.

Definition token (self : Frequency) : subject := _token self.

Definition freq (self : Frequency) : Z := _freq self.

Definition increment_freq (self : Frequency) : Frequency :=
  mkFrequency (_token self) (_freq self + 1).

Definition _compare_frequency (self : Frequency) (other : pyobj) : result Z :=
  match other with
  | OFrequency o =>
      if _freq self >? _freq o then Ok (-1)
      else if _freq self =? _freq o then
        if subject_eq (_token self) (_token o) then Ok 0
        else lt <- subject_lt (_token self) (_token o) ;;
             if lt then Ok (-1) else Ok 1
      else Ok 1
  | _ => Ok 1
  end.

Definition __eq__ (self : Frequency) (other : pyobj) : result bool :=
  c <- _compare_frequency self other ;; Ok (c =? 0).

Definition __ne__ (self : Frequency) (other : pyobj) : result bool :=
  c <- _compare_frequency self other ;; Ok (negb (c =? 0)).

Definition __lt__ (self : Frequency) (other : pyobj) : result bool :=
  c <- _compare_frequency self other ;; Ok (c =? -1).

Definition __le__ (self : Frequency) (other : pyobj) : result bool :=
  c <- _compare_frequency self other ;; Ok (c <=? 0).

Definition __gt__ (self : Frequency) (other : pyobj) : result bool :=
  c <- _compare_frequency self other ;; Ok (c =? 1).

Definition __ge__ (self : Frequency) (other : pyobj) : result bool :=
  c <- _compare_frequency self other ;; Ok (c >=? 0).

End Frequency.

(** ** The comparison operators of Python

    [v op w] first asks the reflected method of [w] when the type of [w] is a
    proper subclass of the type of [v], then the method of [v], then the
    reflected method of [w]; a method of a type that does not handle the
    other operand answers [NotImplemented].  When every method declines, [==]
    and [!=] fall back on identity and the order operators raise. *)

Inductive cmpop : Type := Py_LT | Py_LE | Py_EQ | Py_NE | Py_GT | Py_GE.

Definition swapped_op (op : cmpop) : cmpop :=
  match op with
  | Py_LT => Py_GT | Py_LE => Py_GE | Py_EQ => Py_EQ
  | Py_NE => Py_NE | Py_GT => Py_LT | Py_GE => Py_LE
  end.

Definition op_symbol (op : cmpop) : string :=
  match op with
  | Py_LT => "<" | Py_LE => "<=" | Py_EQ => "==" | Py_NE => "!="
  | Py_GT => ">" | Py_GE => ">="
  end.

Inductive rich : Type :=
| NotImplemented
| RBool (b : bool).

Definition str_richcompare (a b : string) (op : cmpop) : bool :=
  match op with
  | Py_LT => String.ltb a b
  | Py_LE => String.leb a b
  | Py_EQ => String.eqb a b
  | Py_NE => negb (String.eqb a b)
  | Py_GT => String.ltb b a
  | Py_GE => String.leb b a
  end.

Definition int_richcompare (a b : Z) (op : cmpop) : bool :=
  match op with
  | Py_LT => a <? b
  | Py_LE => a <=? b
  | Py_EQ => a =? b
  | Py_NE => negb (a =? b)
  | Py_GT => a >? b
  | Py_GE => a >=? b
  end.

Definition answer (r : result bool) : result rich :=
  b <- r ;; Ok (RBool b).

(** The method of the type of [self] for [op], applied to [other]. *)
Definition tp_richcompare (self other : pyobj) (op : cmpop) : result rich :=
  match self with
  | ONone =>
      match op, other with
      | Py_EQ, ONone => Ok (RBool true)
      | Py_NE, ONone => Ok (RBool false)
      | _, _ => Ok NotImplemented
      end
  | OStr a =>
      match other with
      | OStr b => Ok (RBool (str_richcompare a b op))
      | _ => Ok NotImplemented
      end
  | OInt a =>
      match other with
      | OInt b => Ok (RBool (int_richcompare a b op))
      | _ => Ok NotImplemented
      end
  | OPair p =>
      match op with
      | Py_EQ => Ok (RBool (Pair.__eq__ p other))
      | Py_NE => Ok (RBool (negb (Pair.__eq__ p other)))
      | _ => Ok NotImplemented
      end
  | OTwoGram g =>
      match op with
      | Py_LT => answer (TwoGram.__lt__ g other)
      | Py_LE => answer (TwoGram.__le__ g other)
      | Py_EQ => Ok (RBool (TwoGram.__eq__ g other))
      | Py_NE => Ok (RBool (TwoGram.__ne__ g other))
      | Py_GT => answer (TwoGram.__gt__ g other)
      | Py_GE => answer (TwoGram.__ge__ g other)
      end
  | OFrequency f =>
      match op with
      | Py_LT => answer (Frequency.__lt__ f other)
      | Py_LE => answer (Frequency.__le__ f other)
      | Py_EQ => answer (Frequency.__eq__ f other)
      | Py_NE => answer (Frequency.__ne__ f other)
      | Py_GT => answer (Frequency.__gt__ f other)
      | Py_GE => answer (Frequency.__ge__ f other)
      end
  end.

Definition proper_subclass (c d : pytype) : bool :=
  negb (pytype_eqb c d) && issubclass c d.

Definition do_richcompare (v w : pyobj) (op : cmpop) : result bool :=
  let reflected_first := proper_subclass (type_of w) (type_of v) in
  r1 <- (if reflected_first then tp_richcompare w v (swapped_op op)
         else Ok NotImplemented) ;;
  match r1 with
  | RBool b => Ok b
  | NotImplemented =>
      r2 <- tp_richcompare v w op ;;
      match r2 with
      | RBool b => Ok b
      | NotImplemented =>
          r3 <- (if reflected_first then Ok NotImplemented
                 else tp_richcompare w v (swapped_op op)) ;;
          match r3 with
          | RBool b => Ok b
          | NotImplemented =>
              (* two objects of different built-in types are never identical *)
              match op with
              | Py_EQ => Ok false
              | Py_NE => Ok true
              | _ => Raise (not_supported (op_symbol op) (type_of v) (type_of w))
              end
          end
      end
  end.

(** [v == w] and [v < w]. *)
Definition py_eq (v w : pyobj) : result bool := do_richcompare v w Py_EQ.
Definition py_lt (v w : pyobj) : result bool := do_richcompare v w Py_LT.

(** ** Built-in containers *)

(** A [dict] in insertion order.  Assigning to a key already present keeps
    the key where it is; a new key goes to the end.  [key_eqb] is the
    equality of two keys of equal hash. *)
Section Dict.

Context {K V : Type}.
Variable key_eqb : K -> K -> bool.

Fixpoint dict_get (d : list (K * V)) (k : K) : option V :=
  match d with
  | [] => None
  | (k', v) :: rest => if key_eqb k' k then Some v else dict_get rest k
  end.

Definition dict_get_default (d : list (K * V)) (k : K) (default : V) : V :=
  match dict_get d k with
  | Some v => v
  | None => default
  end.

Definition dict_contains (d : list (K * V)) (k : K) : bool :=
  match dict_get d k with
  | Some _ => true
  | None => false
  end.

Fixpoint dict_set (d : list (K * V)) (k : K) (v : V) : list (K * V) :=
  match d with
  | [] => [(k, v)]
  | (k', v') :: rest =>
      if key_eqb k' k then (k', v) :: rest
      else (k', v') :: dict_set rest k v
  end.

Definition dict_keys (d : list (K * V)) : list K := map fst d.

End Dict.

(** [list.sort()] is a stable sort that decides with [<] alone.  Where [<]
    orders the elements consistently (two elements neither of which is less
    than the other are less than the same elements), the result is the one
    list Python specifies: the elements in ascending order, those that are
    not less than each other in the order they had.  The model is the
    insertion sort that builds this list: the elements are taken from left
    to right, and each goes in front of the first element of the sorted
    prefix that it is less than.  Where [<] is not consistent, as on floats
    one of which is NaN, the list CPython returns depends on the runs and
    merges of its algorithm, which are not modelled: the properties that
    depend on the order of the result are stated for consistent orders. *)
Section ListSort.

Context {A : Type}.
Variable lt : A -> A -> result bool.

Fixpoint sort_insert (pivot : A) (sorted : list A) : result (list A) :=
  match sorted with
  | [] => Ok [pivot]
  | y :: rest =>
      c <- lt pivot y ;;
      if c then Ok (pivot :: y :: rest)
      else rest' <- sort_insert pivot rest ;; Ok (y :: rest')
  end.

Definition list_sort (l : list A) : result (list A) :=
  for_each (fun sorted pivot => sort_insert pivot sorted) l [].

End ListSort.

(** [tokens[n]]. *)
Definition getitem {A : Type} (l : list A) (n : nat) : result A :=
  match nth_error l n with
  | Some x => Ok x
  | None => Raise (IndexError "list index out of range")
  end.

(** ** [freq_counter.py] *)

(** The value [freq_dict.get(token)] hands to the constructor. *)
Definition obj_of_count (c : option Z) : pyobj :=
  match c with
  | Some n => OInt n
  | None => ONone
  end.

(** [x < y] between two [Frequency] objects, as [list.sort] asks it. *)
Definition frequency_lt (x y : Frequency) : result bool :=
  py_lt (OFrequency x) (OFrequency y).

Definition compute_word_freq (tokens : option (list string))
  : result (list Frequency) :=
  match tokens with
  | None => Ok []
  | Some [] => Ok []
  | Some tokens =>
      let freq_dict :=
        fold_left
          (fun d token =>
             dict_set String.eqb d token
                      (dict_get_default String.eqb d token 0 + 1))
          tokens [] in
      freq_list <-
        for_each
          (fun freq_list token =>
             f <- Frequency.__init__
                    (OStr token)
                    (obj_of_count (dict_get String.eqb freq_dict token)) ;;
             Ok (freq_list ++ [f])%list)
          (dict_keys freq_dict) [] ;;
      list_sort frequency_lt freq_list
  end.

(** Two [TwoGram] keys of a [dict] are the same key when [==] says so. *)
Definition twogram_key_eqb (g h : TwoGram) : bool :=
  TwoGram.__eq__ g (OTwoGram h).

Definition compute_twogram_freq (tokens : option (list string))
  : result (list Frequency) :=
  match tokens with
  | None => Ok []
  | Some [] => Ok []
  | Some tokens =>
      tgram_dict <-
        for_each
          (fun d n =>
             t1 <- getitem tokens n ;;
             t2 <- getitem tokens (n + 1) ;;
             tgram <- TwoGram.__init__ (VStr t1) (VStr t2) ;;
             Ok (dict_set twogram_key_eqb d tgram
                          (dict_get_default twogram_key_eqb d tgram 0 + 1)))
          (seq 0 (length tokens - 1)) [] ;;
      tgram_list <-
        for_each
          (fun tgram_list tgram =>
             f <- Frequency.__init__
                    (OTwoGram tgram)
                    (obj_of_count (dict_get twogram_key_eqb tgram_dict tgram)) ;;
             Ok (tgram_list ++ [f])%list)
          (dict_keys tgram_dict) [] ;;
      list_sort frequency_lt tgram_list
  end.

(** ** [freq_utils.py] *)

Definition newline : string := String (ascii_of_nat 10) EmptyString.

Fixpoint spaces (n : nat) : string :=
  match n with
  | O => EmptyString
  | S m => String " " (spaces m)
  end.

(** [f"{n:>6}"]: the decimal text of [n], padded on the left with spaces to
    six characters; a longer text is left as it is. *)
Definition format_right6 (n : Z) : string :=
  let s := str_of_int n in
  spaces (6 - String.length s) ++ s.

(** Equality of two [Frequency] records as elements of a [set]: equal hashes
    and [__eq__], which is equality of both attributes.  (A collision of the
    hashes of two unequal records is left aside.) *)
Definition frequency_key_eqb (f g : Frequency) : bool :=
  (_freq f =? _freq g) && subject_eq (_token f) (_token g).

Fixpoint set_contains (s : list Frequency) (f : Frequency) : bool :=
  match s with
  | [] => false
  | g :: rest => frequency_key_eqb g f || set_contains rest f
  end.

(** [set(freqs)]: the elements are added one by one. *)
Definition set_of_list (freqs : list Frequency) : list Frequency :=
  fold_left (fun s f => if set_contains s f then s else (s ++ [f])%list) freqs [].

(** [freq.token.__str__()]: the text, and the new state of the record, whose
    subject [Pair.__str__] may have assigned to. *)
Definition token_str (freq : Frequency) : string * Frequency :=
  match _token freq with
  | SStr s => (s, freq)
  | STwoGram g =>
      let '(s, g') := Pair.__str__ g in
      (s, mkFrequency (STwoGram g') (_freq freq))
  end.

(** The output stream is the text written to it so far. *)
Definition write (out : string) (s : string) : string := out ++ s.

(** [print_frequencies(freqs, out)]: the new states of the records of
    [freqs] and of [out]. *)
Definition print_frequencies (freqs : list Frequency) (out : string)
  : list Frequency * string :=
  let total_items :=
    fold_left (fun total freq => total + Frequency.freq freq) freqs 0 in
  let unique_items := Z.of_nat (List.length (set_of_list freqs)) in
  let out := write out (format_right6 total_items ++ " total items" ++ newline) in
  let out := write out (format_right6 unique_items ++ " unique items"
                          ++ newline ++ newline) in
  fold_left
    (fun '(printed, out) freq =>
       let '(s, freq') := token_str freq in
       ((printed ++ [freq'])%list,
        write out (format_right6 (Frequency.freq freq) ++ " " ++ s ++ newline)))
    freqs ([], out).

(** ** [retrieval.py] *)

(** Modelled from the spec: [Document] of [src/vector_space/vector_space_models.py],
    which is not among the sources: "a title plus an ordered sequence of
    content words". *)
Record Document : Type := mkDocument { title : string; words : list string }.

Module Document.

(** Modelled from the spec: [Document.tf], not among the sources:
    "[rawCount] is the number of occurrences of [term] within that
    document's content". *)
Definition tf (self : Document) (term : string) : Z :=
  Z.of_nat (count_occ string_dec (words self) term).

End Document.

(** The attributes of a corpus that [LegoCorpus] reads: the documents, the
    vocabulary (term to index) and the document-frequency table. *)
Record LegoCorpus : Type := mkLegoCorpus {
  docs : list Document;
  _terms : list (string * Z);
  _dfs : list (string * Z)
}.

(** The [float] nearest to an [int], the even one of two that are equally
    near; it is infinite when the [int] is beyond the range of [float]. *)
Definition nearest_float (n : Z) : float :=
  FloatOps.SF2Prim
    (SpecFloat.binary_normalize FloatOps.prec FloatOps.emax n 0 false).

(** An [int] as a [float]: the nearest [float], and [OverflowError] beyond
    the range of [float]. *)
Definition float_of_int (n : Z) : result float :=
  let x := nearest_float n in
  if PrimFloat.is_infinity x
  then Raise (OverflowError "int too large to convert to float")
  else Ok x.

(** An [int] as the number it is, for the division below. *)
Definition spec_of_int (n : Z) : SpecFloat.spec_float :=
  match n with
  | Z0 => SpecFloat.S754_zero false
  | Zpos m => SpecFloat.S754_finite false m 0
  | Zneg m => SpecFloat.S754_finite true m 0
  end.

(** [a / b] on two [int]: the [float] nearest to the quotient of the two
    integers. *)
Definition truediv (a b : Z) : result float :=
  if b =? 0 then Raise (ZeroDivisionError "division by zero")
  else
    let q := FloatOps.SF2Prim
               (SpecFloat.SFdiv FloatOps.prec FloatOps.emax
                                (spec_of_int a) (spec_of_int b)) in
    if PrimFloat.is_infinity q
    then Raise (OverflowError "integer division result too large for a float")
    else Ok q.

(** A positive [int] [n] as [x * 2**e] with [0.5 <= x < 1], [x] rounded to
    the precision of [float]: what [math.log10] works from when [n] is
    beyond the range of [float]. *)
Definition long_frexp (n : Z) : float * Z :=
  match SpecFloat.binary_normalize FloatOps.prec (Z.log2 n + 3) n 0 false with
  | SpecFloat.S754_finite _ m e =>
      let bits := Z.log2 (Zpos m) + 1 in
      (FloatOps.SF2Prim (SpecFloat.S754_finite false m (- bits)), bits + e)
  | _ => (PrimFloat.zero, 0)
  end.

(** [x * y] on two [float]. *)
Definition float_mul (x y : float) : float := PrimFloat.mul x y.

Section TfIdf.

(** The decimal logarithm of the C library, on its domain. *)
Variable log10 : float -> float.

(** [math.log10(x)]. *)
Definition math_log10 (x : float) : result float :=
  if PrimFloat.ltb PrimFloat.zero x then Ok (log10 x)
  else if PrimFloat.is_nan x then Ok x
  else Raise (ValueError "math domain error").

(** [math.log10(n)] for an [int]: the logarithm of [n] as a [float] and,
    for an [n] too large for that, the sum [log10(x) + log10(2.0) * e] over
    the parts [x * 2**e] of [n]. *)
Definition math_log10_int (n : Z) : result float :=
  if n <=? 0 then Raise (ValueError "math domain error")
  else
    match float_of_int n with
    | Ok x => Ok (log10 x)
    | Raise _ =>
        let '(x, e) := long_frexp n in
        Ok (PrimFloat.add (log10 x)
                          (PrimFloat.mul (log10 2%float) (nearest_float e)))
    end.

Definition _compute_df (self : LegoCorpus) (term : string) : Z :=
  fold_left Z.add
    (map (fun doc => if existsb (String.eqb term) (words doc) then 1 else 0)
         (docs self))
    0.

(** [_compute_tf_idf(term, doc)], for the document [doc] that [_get_doc]
    resolves its arguments to.  The result is [None] when the function
    ends without reaching a [return]. *)
Definition _compute_tf_idf (self : LegoCorpus) (term : string) (doc : Document)
  : result (option float) :=
  let dfs := _dfs self in
  let df := dict_get String.eqb dfs term in
  if dict_contains String.eqb dfs term then
    tf <- math_log10_int (1 + Document.tf doc term) ;;
    df_plus_1 <- match df with
                 | Some n => Ok (1 + n)
                 | None => Raise (TypeError
                                    "unsupported operand type(s) for +: 'int' and 'NoneType'")
                 end ;;
    quotient <- truediv (Z.of_nat (List.length (docs self))) df_plus_1 ;;
    idf <- math_log10 quotient ;;
    let tf_idf := float_mul tf idf in
    if dict_contains String.eqb (_terms self) term
       && (Z.of_nat (List.length (docs self)) >? 1)
    then Ok (Some tf_idf)
    else Ok None
  else Ok (Some PrimFloat.zero).

End TfIdf.

(** [l[:k]]. *)
Definition slice_to {A : Type} (l : list A) (k : Z) : list A :=
  if k <? 0 then firstn (Z.to_nat (Z.of_nat (List.length l) + k)) l
  else firstn (Z.to_nat k) l.

(** The comparison [sorted] makes between two items under
    [key=lambda item: item[1]]. *)
Definition score_lt (a b : string * float) : result bool :=
  Ok (PrimFloat.ltb (snd a) (snd b)).

(** [sorted(items, key=lambda item: item[1], reverse=True)]: CPython reverses
    the list, sorts it and reverses the result, which keeps items of equal
    score in their original order.  The order of the result is that of
    Python when no score is NaN (see [list_sort]); the items of the result
    are those of Python for all scores. *)
Definition sorted_by_score_reverse (items : list (string * float))
  : result (list (string * float)) :=
  s <- list_sort score_lt (rev items) ;; Ok (rev s).

(** [dict(pairs)]. *)
Definition dict_of_pairs (pairs : list (string * float)) : list (string * float) :=
  fold_left (fun d item => dict_set String.eqb d (fst item) (snd item)) pairs [].

(** [get_top_k_sets(query_result, k)]; [query_result] is given by its items in
    the order of the dict. *)
Definition get_top_k_sets (self : LegoCorpus) (query_result : list (string * float))
  (k : Z) : result (list Document) :=
  sorted_all <- sorted_by_score_reverse query_result ;;
  let sorted_result := slice_to sorted_all k in
  Ok (filter (fun set => dict_contains String.eqb (dict_of_pairs sorted_result) (title set))
             (docs self)).

(** ** Vocabulary of the specification *)

(** The text of a slot in the string form of a pairing: the literal text
    [None] for an absent slot. *)
Definition slot_text (v : value) : string :=
  match v with
  | VNone => "None"
  | VStr s => s
  | VInt z => str_of_int z
  end.

(** The string form [<first:second>] of a pairing. *)
Definition pair_text (p : Pair) : string :=
  "<" ++ slot_text (_object1 p) ++ ":" ++ slot_text (_object2 p) ++ ">".

(** A subject a [Frequency] may have: a [str] or a [TwoGram]. *)
Definition is_str_or_TwoGram (o : pyobj) : bool :=
  match o with
  | OStr _ | OTwoGram _ => true
  | _ => false
  end.

(** A count a [Frequency] may have: an [int] that is not negative. *)
Definition is_nonnegative_int (o : pyobj) : bool :=
  match o with
  | OInt n => 0 <=? n
  | _ => false
  end.

Definition value_eq_dec (v w : value) : {v = w} + {v <> w}.
Proof. decide equality; [apply string_dec | apply Z.eq_dec]. Defined.

Definition Pair_eq_dec (g h : Pair) : {g = h} + {g <> h}.
Proof. decide equality; apply value_eq_dec. Defined.

Definition subject_eq_dec (a b : subject) : {a = b} + {a <> b}.
Proof. decide equality; [apply string_dec | apply Pair_eq_dec]. Defined.

Definition Frequency_eq_dec (f g : Frequency) : {f = g} + {f <> g}.
Proof. decide equality; [apply Z.eq_dec | apply subject_eq_dec]. Defined.

(** [sum(f.count for f in l)]. *)
Definition total_count (l : list Frequency) : Z :=
  fold_right Z.add 0 (map _freq l).

(** [a] comes before [b] in the order of [Frequency]: [a < b]. *)
Definition frequency_before (a b : Frequency) : Prop :=
  py_lt (OFrequency a) (OFrequency b) = Ok true.

(** The pairing of [tokens[i]] with [tokens[i+1]], for every index [i] that
    has a successor, in the order of the indices. *)
Definition consecutive_pairs (tokens : list string) : list TwoGram :=
  map (fun i => mkPair (VStr (nth i tokens EmptyString))
                       (VStr (nth (S i) tokens EmptyString)))
      (seq 0 (List.length tokens - 1)).

(** A subject made of [str] tokens only: a word, or a pair of two words. *)
Definition is_text_subject (t : subject) : bool :=
  match t with
  | SStr _ => true
  | STwoGram (mkPair (VStr _) (VStr _)) => true
  | STwoGram _ => false
  end.

(** In a list sorted by [<] alone, no element is less than one before it. *)
Definition not_after {A : Type} (lt : A -> A -> result bool) (a b : A) : Prop :=
  lt b a = Ok false.

(** The order of two subjects made of [str] tokens, as a boolean: words by
    the order of [str], a word below any pair, pairs by their first token
    and then by their second. *)
Definition text_subject_ltb (a b : subject) : bool :=
  match a, b with
  | SStr x, SStr y => String.ltb x y
  | SStr _, STwoGram _ => true
  | STwoGram _, SStr _ => false
  | STwoGram (mkPair (VStr a1) (VStr a2)), STwoGram (mkPair (VStr b1) (VStr b2)) =>
      String.ltb a1 b1 || (String.eqb a1 b1 && String.ltb a2 b2)
  | STwoGram _, STwoGram _ => false
  end.

(** The step of the counting loops:
    [d[key] = d.get(key, 0) + 1]. *)
Definition count_step {K : Type} (key_eqb : K -> K -> bool)
  (d : list (K * Z)) (key : K) : list (K * Z) :=
  dict_set key_eqb d key (dict_get_default key_eqb d key 0 + 1).

(** [sum(d.values())]. *)
Definition dict_sum {K : Type} (d : list (K * Z)) : Z :=
  fold_right Z.add 0 (map snd d).

(** What a counting loop has built after the keys of [seen]: one entry for
    every different key, holding the number of its occurrences. *)
Definition counted {K : Type} (key_eqb : K -> K -> bool)
  (key_dec : forall a b : K, {a = b} + {a <> b})
  (d : list (K * Z)) (seen : list K) : Prop :=
  NoDup (dict_keys d)
  /\ (forall k, In k (dict_keys d) <-> In k seen)
  /\ (forall k, dict_get_default key_eqb d k 0 = Z.of_nat (count_occ key_dec seen k))
  /\ dict_sum d = Z.of_nat (List.length seen).

(** The display string of a subject: a word is itself, a pairing is its
    string form. *)
Definition subject_text (t : subject) : string :=
  match t with
  | SStr s => s
  | STwoGram g => pair_text g
  end.

(** The line of the report for one record: ["{count:>6} {subject}"]. *)
Definition frequency_line (f : Frequency) : string :=
  format_right6 (_freq f) ++ " " ++ subject_text (_token f) ++ newline.

(** The number of different records of a list. *)
Definition distinct_count (l : list Frequency) : Z :=
  Z.of_nat (List.length (nodup Frequency_eq_dec l)).

(** The lines of a report, one after the other. *)
Fixpoint lines_text (lines : list string) : string :=
  match lines with
  | [] => EmptyString
  | line :: rest => line ++ lines_text rest
  end.

(** [a] stands before [b] in the list [l]. *)
Definition before {A : Type} (l : list A) (a b : A) : Prop :=
  exists l1 l2, l = (l1 ++ l2)%list /\ In a l1 /\ In b l2.

(** The score a score mapping gives a document, by its title. *)
Definition score_of (query_result : list (string * float)) (d : Document)
  : option float :=
  dict_get String.eqb query_result (title d).

(** The documents of [r] are in the order of their scores, none scoring
    above one before it. *)
Definition scores_nonincreasing (query_result : list (string * float))
  (r : list Document) : Prop :=
  StronglySorted
    (fun a b => exists sa sb, score_of query_result a = Some sa
                              /\ score_of query_result b = Some sb
                              /\ PrimFloat.leb sb sa = true)
    r.

(** A corpus of two documents and the scores of a query against it. *)
Definition doc_A : Document := mkDocument "Airport" ["airport with planes"].
Definition doc_B : Document := mkDocument "Bakery" ["bakery with bread"].
Definition corpus_AB : LegoCorpus :=
  mkLegoCorpus [doc_A; doc_B]
               [("airport with planes", 0); ("bakery with bread", 1)]
               [("airport with planes", 1); ("bakery with bread", 1)].
Definition scores_AB : list (string * float) :=
  [("Airport", 0.25%float); ("Bakery", 0.5%float)].

(** A corpus of one document. *)
Definition corpus_A : LegoCorpus :=
  mkLegoCorpus [doc_A] [("airport with planes", 0)] [("airport with planes", 1)].

(** The ranking of the report: the higher count first and, on equal counts,
    the lower subject first. *)
Definition ranked_before (a b : Frequency) : Prop :=
  _freq a > _freq b
  \/ (_freq a = _freq b /\ text_subject_ltb (_token a) (_token b) = true).

(** The cases of a comparison of two floats, given as their specification. *)
Ltac sf_cases :=
  repeat match goal with
         | s : bool |- _ => destruct s
         end;
  simpl; try congruence; try reflexivity;
  repeat match goal with
         | |- context [Pos.compare_cont Eq ?a ?b] =>
             change (Pos.compare_cont Eq a b) with (Pos.compare a b)
         | H : context [Pos.compare_cont Eq ?a ?b] |- _ =>
             change (Pos.compare_cont Eq a b) with (Pos.compare a b) in H
         end;
  repeat match goal with
         | |- context [Z.compare ?a ?b] => destruct (Z.compare_spec a b)
         | H : context [Z.compare ?a ?b] |- _ => destruct (Z.compare_spec a b)
         | |- context [Pos.compare ?a ?b] => destruct (Pos.compare_spec a b)
         | H : context [Pos.compare ?a ?b] |- _ => destruct (Pos.compare_spec a b)
         end;
  simpl in *; subst; try congruence; try reflexivity; try lia.

(** The condition the constructor of [TwoGram] accepts two tokens under:
    one of them is [None], or both have the same type. *)
Definition type_symmetric (g : TwoGram) : bool :=
  is_None (_object1 g) || is_None (_object2 g)
  || pytype_eqb (type_of_value (_object1 g)) (type_of_value (_object2 g)).

(** ** [tokenize_file]

    The characters are those of ASCII text, for which [str.lower] changes
    the letters [A] to [Z] only and the class [\w] of a regular expression
    is made of the letters, the digits and the underscore.  Text with other
    characters is outside this model: the properties of the tokenizer are
    stated for ASCII text. *)

Definition is_ascii_char (c : ascii) : bool := (nat_of_ascii c <? 128)%nat.

Definition is_upper (c : ascii) : bool :=
  ((65 <=? nat_of_ascii c) && (nat_of_ascii c <=? 90))%nat.

Definition is_lower (c : ascii) : bool :=
  ((97 <=? nat_of_ascii c) && (nat_of_ascii c <=? 122))%nat.

Definition is_digit (c : ascii) : bool :=
  ((48 <=? nat_of_ascii c) && (nat_of_ascii c <=? 57))%nat.

(** [\w]. *)
Definition is_word_char (c : ascii) : bool :=
  is_upper c || is_lower c || is_digit c || (nat_of_ascii c =? 95)%nat.

(** [[\w']]. *)
Definition in_token_class (c : ascii) : bool :=
  is_word_char c || (nat_of_ascii c =? 39)%nat.

Definition lower_char (c : ascii) : ascii :=
  if is_upper c then ascii_of_nat (nat_of_ascii c + 32) else c.

(** [line.lower()]. *)
Fixpoint str_lower (s : string) : string :=
  match s with
  | EmptyString => EmptyString
  | String c rest => String (lower_char c) (str_lower rest)
  end.

(** The match that ends where the scan stands, if it is not empty. *)
Definition emit_match (run : string) : list string :=
  match run with
  | EmptyString => []
  | _ => [run]
  end.

(** The scan of [regex_patt.findall]: [run] is the part of the current match
    read so far; a character outside the class ends the match. *)
Fixpoint findall_scan (run : string) (s : string) : list string :=
  match s with
  | EmptyString => emit_match run
  | String c rest =>
      if in_token_class c then findall_scan (run ++ String c EmptyString) rest
      else (emit_match run ++ findall_scan EmptyString rest)%list
  end.

(** [regex_patt.findall(s)] for the pattern [[\w']+]. *)
Definition findall (s : string) : list string := findall_scan EmptyString s.

(** [tokenize_file(file_obj)]; the file is the list of its lines. *)
Definition tokenize_file (file_obj : list string) : list string :=
  fold_left (fun token_list line => (token_list ++ findall (str_lower line))%list)
            file_obj [].

Fixpoint string_forallb (p : ascii -> bool) (s : string) : bool :=
  match s with
  | EmptyString => true
  | String c rest => p c && string_forallb p rest
  end.

(** ASCII text. *)
Definition is_ascii_text (s : string) : bool := string_forallb is_ascii_char s.

(** A token as the tokenizer produces them: not empty, made of lower-case
    letters, digits, underscores and apostrophes. *)
Definition is_token (t : string) : bool :=
  negb (String.eqb t EmptyString)
  && string_forallb (fun c => in_token_class c && negb (is_upper c)) t.

(** ** More of [retrieval.py] *)

Record LegoSet : Type := mkLegoSet {
  set_name : string;
  list_price : float;
  piece_count : Z;
  prod_long_desc : string;
  review_difficulty : string
}.

(** The documents [LegoCorpus.__init__] hands to the constructor of
    [Corpus]: one per set, titled by the name of the set, whose words are
    the single string of its description. *)
Definition lego_documents (lego_sets : list LegoSet) : list Document :=
  map (fun l_set => mkDocument (set_name l_set) [prod_long_desc l_set]) lego_sets.

(** [compute_tf_idf_vector(doc)], for the document [_get_doc] resolves its
    arguments to: the list of weights handed to [Vector], one per term of
    the vocabulary, in the order of the vocabulary. *)
Definition compute_tf_idf_vector (log10 : float -> float) (self : LegoCorpus)
  (doc : Document) : result (list (option float)) :=
  for_each
    (fun all_tf_idfs word =>
       tf_idf <- _compute_tf_idf log10 self word doc ;;
       Ok (all_tf_idfs ++ [tf_idf])%list)
    (dict_keys (_terms self)) [].

(** The documents whose words hold the term. *)
Definition documents_with (term : string) (documents : list Document)
  : list Document :=
  filter (fun doc => existsb (String.eqb term) (words doc)) documents.

(** ** The layout of the report *)






(** ** The ranking of a score mapping *)

(** An item of the score mapping ranks above another one: its score is
    higher, or the two scores are equal and it comes first in the
    mapping. *)
Definition ranks_above (query_result : list (string * float))
  (a b : string * float) : Prop :=
  PrimFloat.ltb (snd b) (snd a) = true
  \/ (PrimFloat.eqb (snd a) (snd b) = true /\ before query_result a b).

(** The documents, in their order, whose title is one of [titles]. *)
Definition documents_titled (titles : list string) (documents : list Document)
  : list Document :=
  filter (fun d => existsb (String.eqb (title d)) titles) documents.

(** * Properties *)

Local Open Scope list_scope.

(** ** Equality and order of slot values and subjects *)

Lemma value_eq_iff (v w : value) : value_eq v w = true <-> v = w.
Proof.
  destruct v, w; simpl; split; intros H; try discriminate; try reflexivity.
  - apply String.eqb_eq in H. now subst.
  - inversion H. apply String.eqb_refl.
  - apply Z.eqb_eq in H. now subst.
  - inversion H. apply Z.eqb_refl.
Qed.

Lemma value_eq_refl (v : value) : value_eq v v = true.
Proof. now apply value_eq_iff. Qed.

Lemma pair_slots_eq_iff (g h : Pair) :
  value_eq (_object1 g) (_object1 h) && value_eq (_object2 g) (_object2 h) = true
  <-> g = h.
Proof.
  rewrite andb_true_iff, !value_eq_iff.
  destruct g, h; simpl; split.
  - intros [-> ->]. reflexivity.
  - intros H. inversion H. auto.
Qed.

Lemma subject_eq_iff (a b : subject) : subject_eq a b = true <-> a = b.
Proof.
  destruct a as [x | g], b as [y | h]; simpl.
  - rewrite String.eqb_eq. split; [intros -> | intros H; inversion H]; reflexivity.
  - split; discriminate.
  - split; discriminate.
  - rewrite pair_slots_eq_iff. split; [intros -> | intros H; inversion H]; reflexivity.
Qed.

Lemma frequency_key_eqb_iff (f g : Frequency) : frequency_key_eqb f g = true <-> f = g.
Proof.
  unfold frequency_key_eqb. rewrite andb_true_iff, Z.eqb_eq, subject_eq_iff.
  destruct f, g; simpl; split.
  - intros [-> ->]. reflexivity.
  - intros H. inversion H. auto.
Qed.

Lemma compare_tokens_of_equal (t1 t2 : value) :
  value_eq t1 t2 = true -> _compare_tokens t1 t2 = Ok 0.
Proof.
  intros H. unfold _compare_tokens.
  destruct t1, t2; simpl in *; try discriminate; try reflexivity; now rewrite H.
Qed.

Lemma string_compare_refl (s : string) : String.compare s s = Eq.
Proof.
  pose proof (String.compare_antisym s s) as H.
  destruct (String.compare s s); simpl in H; congruence.
Qed.

Lemma ascii_compare_lt_trans (a b c : ascii) :
  Ascii.compare a b = Lt -> Ascii.compare b c = Lt -> Ascii.compare a c = Lt.
Proof.
  unfold Ascii.compare. rewrite !N.compare_lt_iff. apply N.lt_trans.
Qed.

Lemma string_compare_lt_trans (a b c : string) :
  String.compare a b = Lt -> String.compare b c = Lt -> String.compare a c = Lt.
Proof.
  revert b c. induction a as [| x a IH]; intros [| y b] [| z c]; simpl;
    try discriminate; try reflexivity.
  destruct (Ascii.compare x y) eqn:Hxy; try discriminate;
    destruct (Ascii.compare y z) eqn:Hyz; try discriminate; intros H1 H2.
  - apply Ascii.compare_eq_iff in Hxy, Hyz. subst.
    assert (E : Ascii.compare z z = Eq).
    { unfold Ascii.compare. apply N.compare_refl. }
    rewrite E. now apply IH with b.
  - apply Ascii.compare_eq_iff in Hxy. subst. now rewrite Hyz.
  - apply Ascii.compare_eq_iff in Hyz. subst. now rewrite Hxy.
  - now rewrite (ascii_compare_lt_trans _ _ _ Hxy Hyz).
Qed.

Lemma string_ltb_trans (a b c : string) :
  String.ltb a b = true -> String.ltb b c = true -> String.ltb a c = true.
Proof.
  unfold String.ltb. intros H1 H2.
  destruct (String.compare a b) eqn:E1; try discriminate.
  destruct (String.compare b c) eqn:E2; try discriminate.
  now rewrite (string_compare_lt_trans _ _ _ E1 E2).
Qed.

Lemma string_ltb_not_eqb (x y : string) :
  String.ltb x y = true -> String.eqb x y = false.
Proof.
  unfold String.ltb. intros H. apply String.eqb_neq. intros ->.
  now rewrite string_compare_refl in H.
Qed.

(** Two different strings are ordered one way or the other. *)
Lemma string_ltb_total (x y : string) :
  x <> y -> String.ltb x y = false -> String.ltb y x = true.
Proof.
  unfold String.ltb. intros Hne. rewrite (String.compare_antisym y x).
  destruct (String.compare x y) eqn:E; simpl; try discriminate; try reflexivity.
  apply String.compare_eq_iff in E. contradiction.
Qed.

(** A subject that is below another one is not equal to it. *)
Lemma subject_lt_not_eq (a b : subject) :
  subject_lt a b = Ok true -> subject_eq a b = false.
Proof.
  destruct a as [x | g], b as [y | h]; simpl; intros H.
  - inversion H. now apply string_ltb_not_eqb.
  - reflexivity.
  - discriminate.
  - destruct (value_eq (_object1 g) (_object1 h)
              && value_eq (_object2 g) (_object2 h)) eqn:E; [| reflexivity].
    apply andb_true_iff in E. destruct E as [E1 E2].
    unfold TwoGram.__lt__, TwoGram._compare_token_pairs in H.
    rewrite (compare_tokens_of_equal _ _ E1) in H. simpl in H.
    rewrite (compare_tokens_of_equal _ _ E2) in H. simpl in H. discriminate.
Qed.

(** The two operators on subjects are what the dispatch of Python computes. *)
Lemma subject_operators_dispatch (a b : subject) :
  py_eq (obj_of_subject a) (obj_of_subject b) = Ok (subject_eq a b)
  /\ py_lt (obj_of_subject a) (obj_of_subject b) = subject_lt a b.
Proof.
  destruct a as [x | g], b as [y | h]; simpl; split; try reflexivity.
  - unfold py_lt, do_richcompare. simpl.
    destruct (TwoGram.__lt__ g (OTwoGram h)) as [c | e]; reflexivity.
Qed.

Lemma frequency_lt_method (x y : Frequency) :
  frequency_lt x y = Frequency.__lt__ x (OFrequency y).
Proof.
  unfold frequency_lt, py_lt, do_richcompare. simpl.
  destruct (Frequency.__lt__ x (OFrequency y)) as [c | e]; reflexivity.
Qed.

(** The order of two records, read off [_compare_frequency]. *)
Lemma frequency_lt_iff (f1 f2 : Frequency) :
  Frequency.__lt__ f1 (OFrequency f2) = Ok true
  <-> (_freq f1 > _freq f2
       \/ (_freq f1 = _freq f2 /\ subject_lt (_token f1) (_token f2) = Ok true)).
Proof.
  unfold Frequency.__lt__, Frequency._compare_frequency.
  destruct (_freq f1 >? _freq f2) eqn:Hgt.
  - simpl. split; [intros _; left; now apply Z.gtb_gt | reflexivity].
  - assert (Hle : ~ _freq f1 > _freq f2).
    { intros H. apply Z.gtb_gt in H. congruence. }
    destruct (_freq f1 =? _freq f2) eqn:Heq.
    + apply Z.eqb_eq in Heq.
      destruct (subject_eq (_token f1) (_token f2)) eqn:Hs.
      * simpl. split; [discriminate |].
        intros [H | [_ H]]; [contradiction |].
        apply subject_lt_not_eq in H. congruence.
      * destruct (subject_lt (_token f1) (_token f2)) as [[|] | e]; simpl.
        -- split; [intros _; right; split; [assumption | reflexivity] | reflexivity].
        -- split; [discriminate | intros [H | [_ H]]; [contradiction | discriminate]].
        -- split; [discriminate | intros [H | [_ H]]; [contradiction | discriminate]].
    + apply Z.eqb_neq in Heq. simpl. split; [discriminate |].
      intros [H | [H _]]; contradiction.
Qed.

(** ** The data model: [Frequency], [TwoGram], [Pair] *)

(** C5: for two Frequency values, [f1 < f2] holds exactly when [f1] has the
    higher count, or the counts are equal and the subject of [f1] is below
    the subject of [f2]; and a comparison of a Frequency with [None] or with
    any value that is not a Frequency treats the Frequency as the greater
    one: [_compare_frequency] answers 1, so [<], [<=] and [==] are false and
    [>], [>=] and [!=] are true. *)
Theorem C5_frequency_order (f1 f2 : Frequency) (other : pyobj) :
  (py_lt (OFrequency f1) (OFrequency f2) = Ok true
   <-> (_freq f1 > _freq f2
        \/ (_freq f1 = _freq f2
            /\ py_lt (obj_of_subject (_token f1)) (obj_of_subject (_token f2)) = Ok true)))
  /\ (isinstance other T_Frequency = false ->
      Frequency._compare_frequency f1 other = Ok 1
      /\ Frequency.__lt__ f1 other = Ok false
      /\ Frequency.__le__ f1 other = Ok false
      /\ Frequency.__eq__ f1 other = Ok false
      /\ Frequency.__ne__ f1 other = Ok true
      /\ Frequency.__gt__ f1 other = Ok true
      /\ Frequency.__ge__ f1 other = Ok true
      /\ py_lt (OFrequency f1) other = Ok false).
Proof.
  split.
  - fold (frequency_lt f1 f2). rewrite frequency_lt_method.
    rewrite (proj2 (subject_operators_dispatch (_token f1) (_token f2))).
    apply frequency_lt_iff.
  - intros H. destruct other; try discriminate H; repeat split; reflexivity.
Qed.

Lemma C5_frequency_order_witness :
  isinstance ONone T_Frequency = false
  /\ Frequency._compare_frequency (mkFrequency (SStr "the") 2) ONone = Ok 1
  /\ Frequency.__lt__ (mkFrequency (SStr "the") 2) ONone = Ok false.
Proof.
  split; [reflexivity |].
  pose proof (proj2 (C5_frequency_order (mkFrequency (SStr "the") 2)
                                       (mkFrequency (SStr "a") 1) ONone)
                    eq_refl) as H.
  split; [exact (proj1 H) | exact (proj1 (proj2 H))].
Defined.

(** C6 (the code departs from it): a TwoGram whose second slot is [None]
    is accepted by the constructor, and so is the pair of the new token with
    [None]; yet assigning a token that is not [None] to the first slot raises
    the type-mismatch error, because the setter compares the type of the new
    value with [NoneType].  The same holds for the second slot. *)
Theorem C6_setter_rejects_token_beside_None (s t : string) :
  TwoGram.__init__ (VStr s) VNone = Ok (mkPair (VStr s) VNone)
  /\ TwoGram.__init__ (VStr t) VNone = Ok (mkPair (VStr t) VNone)
  /\ TwoGram.set_object1 (mkPair (VStr s) VNone) (VStr t) = Raise TwoGram.type_error
  /\ TwoGram.__init__ VNone (VStr s) = Ok (mkPair VNone (VStr s))
  /\ TwoGram.__init__ VNone (VStr t) = Ok (mkPair VNone (VStr t))
  /\ TwoGram.set_object2 (mkPair VNone (VStr s)) (VStr t) = Raise TwoGram.type_error.
Proof. repeat split. Qed.

(** C7 (the code departs from it): the string form of a pair is
    [<first:second>] with the text [None] for an absent slot, but rendering
    assigns the string ["None"] to every slot that was [None]: the pair is
    left unchanged exactly when neither slot is [None].  A TwoGram of [None]
    and an [int] is thereby left holding a [str] and an [int], two values the
    constructor refuses. *)
Theorem C7_str_assigns_to_None_slots (p : Pair) :
  fst (Pair.__str__ p) = pair_text p
  /\ (snd (Pair.__str__ p) = p <-> (_object1 p <> VNone /\ _object2 p <> VNone))
  /\ Pair.__str__ (mkPair VNone (VStr "a"))
     = ("<None:a>", mkPair (VStr "None") (VStr "a"))
  /\ TwoGram.__init__ VNone (VInt 5) = Ok (mkPair VNone (VInt 5))
  /\ snd (Pair.__str__ (mkPair VNone (VInt 5))) = mkPair (VStr "None") (VInt 5)
  /\ TwoGram.__init__ (VStr "None") (VInt 5) = Raise TwoGram.type_error.
Proof.
  destruct p as [o1 o2]. unfold Pair.__str__, pair_text. simpl.
  split; [| split; [| repeat split]].
  - destruct o1, o2; reflexivity.
  - destruct o1, o2; simpl; split;
      try (intros H; discriminate H);
      try (intros [H1 H2]; congruence);
      try (intros _; split; discriminate);
      try reflexivity.
Qed.

(** C8: constructing a Frequency succeeds exactly when the subject is a
    [str] or a [TwoGram] and the count is an [int] that is not negative, and
    the record then holds the two arguments; for any other subject it raises
    the invalid-subject error, and for a valid subject with any other count
    the invalid-count error, and no record is produced. *)
Theorem C8_frequency_init (token freq : pyobj) :
  match Frequency.__init__ token freq with
  | Ok f =>
      is_str_or_TwoGram token = true /\ is_nonnegative_int freq = true
      /\ obj_of_subject (_token f) = token /\ OInt (_freq f) = freq
  | Raise e =>
      (is_str_or_TwoGram token = false /\ e = Frequency.subject_error)
      \/ (is_str_or_TwoGram token = true /\ is_nonnegative_int freq = false
          /\ e = Frequency.count_error)
  end.
Proof.
  unfold Frequency.__init__.
  destruct token; simpl; try (left; split; reflexivity);
    destruct freq as [| | n | | |]; simpl;
    try (right; repeat split; reflexivity);
    destruct (n <? 0) eqn:Hn;
    try (right; repeat split; try reflexivity;
         apply Z.leb_gt; now apply Z.ltb_lt);
    (repeat split; try reflexivity; apply Z.leb_le; apply Z.ltb_ge; assumption).
Qed.

(** C10, as the code has it: the method [Pair.__eq__] accepts a TwoGram with
    equal slots and the method [TwoGram.__eq__] rejects a Pair, but the
    operator [==] gives the method of the subclass priority whichever side
    the TwoGram is on, so both [Pair(a, b) == TwoGram(a, b)] and
    [TwoGram(a, b) == Pair(a, b)] are false. *)
Theorem C10_pair_twogram_equality (a b : value) :
  Pair.__eq__ (mkPair a b) (OTwoGram (mkPair a b)) = true
  /\ TwoGram.__eq__ (mkPair a b) (OPair (mkPair a b)) = false
  /\ py_eq (OPair (mkPair a b)) (OTwoGram (mkPair a b)) = Ok false
  /\ py_eq (OTwoGram (mkPair a b)) (OPair (mkPair a b)) = Ok false.
Proof.
  repeat split.
  unfold Pair.__eq__. simpl. now rewrite !value_eq_refl.
Qed.

(** C10 as stated fails: [Pair("a", "b") == TwoGram("a", "b")] is not true. *)
Lemma C10_counterexample :
  ~ (py_eq (OPair (mkPair (VStr "a") (VStr "b")))
           (OTwoGram (mkPair (VStr "a") (VStr "b"))) = Ok true
     /\ py_eq (OTwoGram (mkPair (VStr "a") (VStr "b")))
              (OPair (mkPair (VStr "a") (VStr "b"))) = Ok false).
Proof. intros [H _]. discriminate H. Qed.

(** ** [list.sort] *)

Section SortFacts.

Context {A : Type}.
Variable lt : A -> A -> result bool.
Variable P : A -> Prop.

Hypothesis lt_defined : forall x y, P x -> P y -> exists b, lt x y = Ok b.
Hypothesis lt_asym : forall x y, P x -> P y -> lt x y = Ok true -> lt y x = Ok false.
Hypothesis lt_trans :
  forall x y z, P x -> P y -> P z ->
                lt x y = Ok true -> lt y z = Ok true -> lt x z = Ok true.

Lemma sort_insert_spec (pivot : A) (sorted : list A) :
  P pivot -> Forall P sorted -> StronglySorted (not_after lt) sorted ->
  exists s, sort_insert lt pivot sorted = Ok s
            /\ Permutation (pivot :: sorted) s
            /\ StronglySorted (not_after lt) s.
Proof.
  intros Hp. induction sorted as [| y rest IH]; intros HP Hs; simpl.
  - exists [pivot]. repeat split; auto. repeat constructor.
  - inversion HP as [| ? ? Py Prest]; subst.
    inversion Hs as [| ? ? Srest Hy]; subst.
    destruct (lt_defined pivot y Hp Py) as [c Hc]. rewrite Hc. simpl.
    destruct c.
    + exists (pivot :: y :: rest). repeat split; auto.
      constructor; [assumption |]. constructor.
      * apply lt_asym; assumption.
      * rewrite Forall_forall in *. intros z Hz. unfold not_after in *.
        destruct (lt_defined z pivot (Prest z Hz) Hp) as [[|] Hb]; [| assumption].
        pose proof (lt_trans z pivot y (Prest z Hz) Hp Py Hb Hc) as Hzy.
        rewrite (Hy z Hz) in Hzy. discriminate.
    + destruct (IH Prest Srest) as [s [Hs1 [Hs2 Hs3]]]. rewrite Hs1. simpl.
      exists (y :: s). repeat split.
      * apply perm_trans with (y :: pivot :: rest); [apply perm_swap |].
        now apply perm_skip.
      * constructor; [assumption |].
        rewrite Forall_forall in *. intros z Hz.
        apply (Permutation_in _ (Permutation_sym Hs2)) in Hz.
        destruct Hz as [<- | Hz]; [exact Hc | now apply Hy].
Qed.

Lemma list_sort_from (l acc : list A) :
  Forall P acc -> StronglySorted (not_after lt) acc -> Forall P l ->
  exists s, for_each (fun sorted pivot => sort_insert lt pivot sorted) l acc = Ok s
            /\ Permutation (acc ++ l) s
            /\ StronglySorted (not_after lt) s.
Proof.
  revert acc. induction l as [| x l IH]; intros acc Pacc Sacc Pl; simpl.
  - exists acc. rewrite app_nil_r. auto.
  - inversion Pl as [| ? ? Px Pl']; subst.
    destruct (sort_insert_spec x acc Px Pacc Sacc) as [s1 [H1 [H2 H3]]].
    rewrite H1. simpl.
    assert (Ps1 : Forall P s1).
    { rewrite Forall_forall in *. intros z Hz.
      apply (Permutation_in _ (Permutation_sym H2)) in Hz.
      destruct Hz as [<- | Hz]; auto. }
    destruct (IH s1 Ps1 H3 Pl') as [s [Hs1 [Hs2 Hs3]]].
    exists s. repeat split; auto.
    apply perm_trans with (s1 ++ l); [| assumption].
    apply perm_trans with ((x :: acc) ++ l).
    + apply Permutation_sym. apply Permutation_middle.
    + now apply Permutation_app_tail.
Qed.

(** On elements that [<] orders, [list.sort] returns a permutation of the
    list in which no element is less than one before it. *)
Lemma list_sort_spec (l : list A) :
  Forall P l ->
  exists s, list_sort lt l = Ok s
            /\ Permutation l s
            /\ StronglySorted (not_after lt) s.
Proof.
  intros Pl. apply (list_sort_from l []); auto. constructor.
Qed.

End SortFacts.

(** ** The order of [Frequency] on subjects made of [str] tokens *)

Lemma subject_lt_text (a b : subject) :
  is_text_subject a = true -> is_text_subject b = true ->
  subject_lt a b = Ok (text_subject_ltb a b).
Proof.
  destruct a as [x | [[| a1 |] [| a2 |]]], b as [y | [[| b1 |] [| b2 |]]];
    simpl; try discriminate; try reflexivity.
  intros _ _.
  unfold TwoGram.__lt__, TwoGram._compare_token_pairs, _compare_tokens. simpl.
  destruct (String.eqb a1 b1) eqn:E1; simpl.
  - destruct (String.ltb a1 b1) eqn:L1.
    + apply string_ltb_not_eqb in L1. congruence.
    + simpl. destruct (String.eqb a2 b2) eqn:E2; simpl.
      * destruct (String.ltb a2 b2) eqn:L2; [| reflexivity].
        apply string_ltb_not_eqb in L2. congruence.
      * destruct (String.ltb a2 b2); reflexivity.
  - destruct (String.ltb a1 b1); reflexivity.
Qed.

Lemma text_subject_ltb_irrefl (a : subject) : text_subject_ltb a a = false.
Proof.
  assert (R : forall x, String.ltb x x = false).
  { intros x. unfold String.ltb. now rewrite string_compare_refl. }
  destruct a as [x | [[| a1 |] [| a2 |]]]; simpl; try reflexivity.
  - apply R.
  - now rewrite !R, andb_false_r.
Qed.

Lemma text_subject_ltb_trans (a b c : subject) :
  text_subject_ltb a b = true -> text_subject_ltb b c = true ->
  text_subject_ltb a c = true.
Proof.
  destruct a as [sa | [[| a1 |] [| a2 |]]], b as [sb | [[| b1 |] [| b2 |]]],
           c as [sc | [[| c1 |] [| c2 |]]];
    simpl; try discriminate; try reflexivity.
  - apply string_ltb_trans.
  - rewrite !orb_true_iff, !andb_true_iff, !String.eqb_eq.
    intros [H1 | [-> H1]] [H2 | [-> H2]].
    + left. eapply string_ltb_trans; eassumption.
    + now left.
    + now left.
    + right. split; [reflexivity |]. eapply string_ltb_trans; eassumption.
Qed.

Lemma text_subject_ltb_total (a b : subject) :
  is_text_subject a = true -> is_text_subject b = true -> a <> b ->
  text_subject_ltb a b = false -> text_subject_ltb b a = true.
Proof.
  destruct a as [x | [[| a1 |] [| a2 |]]], b as [y | [[| b1 |] [| b2 |]]];
    simpl; try discriminate; try reflexivity.
  - intros _ _ Hne. apply string_ltb_total. congruence.
  - intros _ _ Hne. rewrite orb_false_iff, andb_false_iff.
    intros [H1 H2]. destruct (string_dec a1 b1) as [-> | Hn].
    + rewrite String.eqb_refl in *. simpl.
      destruct H2 as [H2 | H2]; [discriminate |].
      apply orb_true_iff. right. apply string_ltb_total; [congruence | assumption].
    + apply orb_true_iff. left. now apply string_ltb_total.
Qed.

(** A record whose subject is made of [str] tokens. *)
Lemma frequency_lt_text (x y : Frequency) :
  is_text_subject (_token x) = true -> is_text_subject (_token y) = true ->
  frequency_lt x y
  = Ok ((_freq x >? _freq y)
        || ((_freq x =? _freq y) && text_subject_ltb (_token x) (_token y))).
Proof.
  intros Hx Hy. rewrite frequency_lt_method.
  unfold Frequency.__lt__, Frequency._compare_frequency.
  destruct (_freq x >? _freq y); [reflexivity |].
  destruct (_freq x =? _freq y); [| reflexivity]. simpl.
  destruct (subject_eq (_token x) (_token y)) eqn:E.
  - apply subject_eq_iff in E. rewrite E, text_subject_ltb_irrefl. reflexivity.
  - rewrite (subject_lt_text _ _ Hx Hy). simpl.
    destruct (text_subject_ltb (_token x) (_token y)); reflexivity.
Qed.

Lemma frequency_lt_text_true (x y : Frequency) :
  is_text_subject (_token x) = true -> is_text_subject (_token y) = true ->
  (frequency_lt x y = Ok true
   <-> (_freq x > _freq y
        \/ (_freq x = _freq y /\ text_subject_ltb (_token x) (_token y) = true))).
Proof.
  intros Hx Hy. rewrite (frequency_lt_text x y Hx Hy).
  rewrite Z.gtb_ltb.
  split.
  - intros H. injection H as H'. apply orb_true_iff in H'.
    destruct H' as [H' | H'].
    + left. apply Z.ltb_lt in H'. lia.
    + apply andb_true_iff in H'. destruct H' as [H1 H2].
      apply Z.eqb_eq in H1. right. split; assumption.
  - intros [H | [H1 H2]].
    + assert (E : (_freq y <? _freq x) = true) by (apply Z.ltb_lt; lia).
      now rewrite E.
    + rewrite H1, Z.eqb_refl, H2. now rewrite orb_true_r.
Qed.

Lemma frequency_lt_text_defined (x y : Frequency) :
  is_text_subject (_token x) = true -> is_text_subject (_token y) = true ->
  exists b, frequency_lt x y = Ok b.
Proof. intros Hx Hy. rewrite (frequency_lt_text x y Hx Hy). eauto. Qed.

Lemma frequency_lt_text_trans (x y z : Frequency) :
  is_text_subject (_token x) = true -> is_text_subject (_token y) = true ->
  is_text_subject (_token z) = true ->
  frequency_lt x y = Ok true -> frequency_lt y z = Ok true ->
  frequency_lt x z = Ok true.
Proof.
  intros Hx Hy Hz.
  rewrite (frequency_lt_text_true x y), (frequency_lt_text_true y z),
    (frequency_lt_text_true x z) by assumption.
  intros [H1 | [H1 S1]] [H2 | [H2 S2]]; try (left; lia).
  right. split; [lia |]. eapply text_subject_ltb_trans; eassumption.
Qed.

Lemma frequency_lt_text_asym (x y : Frequency) :
  is_text_subject (_token x) = true -> is_text_subject (_token y) = true ->
  frequency_lt x y = Ok true -> frequency_lt y x = Ok false.
Proof.
  intros Hx Hy H.
  destruct (frequency_lt_text_defined y x Hy Hx) as [[|] Hb]; [| assumption].
  pose proof (frequency_lt_text_trans x y x Hx Hy Hx H Hb) as Hxx.
  apply (frequency_lt_text_true x x Hx Hx) in Hxx.
  destruct Hxx as [Hxx | [_ Hxx]]; [lia |].
  rewrite text_subject_ltb_irrefl in Hxx. discriminate.
Qed.

Lemma frequency_lt_text_total (x y : Frequency) :
  is_text_subject (_token x) = true -> is_text_subject (_token y) = true ->
  x <> y -> frequency_lt y x = Ok false -> frequency_lt x y = Ok true.
Proof.
  intros Hx Hy Hne Hyx.
  apply (frequency_lt_text_true x y Hx Hy).
  destruct (Z.lt_trichotomy (_freq x) (_freq y)) as [Hlt | [Heq | Hgt]].
  - assert (T : frequency_lt y x = Ok true).
    { apply (frequency_lt_text_true y x Hy Hx). left. lia. }
    congruence.
  - right. split; [assumption |].
    destruct (text_subject_ltb (_token y) (_token x)) eqn:E.
    + assert (T : frequency_lt y x = Ok true).
      { apply (frequency_lt_text_true y x Hy Hx). right. split; [lia | assumption]. }
      congruence.
    + apply text_subject_ltb_total; try assumption.
      intros Heqt. apply Hne. destruct x, y; simpl in *. congruence.
  - left. lia.
Qed.

(** A list without repetition in which no record is less than one before it
    is in the strict order of [Frequency]. *)
Lemma sorted_text_frequencies (s : list Frequency) :
  Forall (fun f => is_text_subject (_token f) = true) s ->
  NoDup s ->
  StronglySorted (not_after frequency_lt) s ->
  StronglySorted frequency_before s.
Proof.
  induction s as [| a s IH]; intros HP Hnd Hs; [constructor |].
  inversion HP as [| ? ? Pa Ps]; subst.
  inversion Hnd as [| ? ? Ha Hnd']; subst.
  inversion Hs as [| ? ? Hs' Hall]; subst.
  constructor; [now apply IH |].
  rewrite Forall_forall in *. intros b Hb.
  unfold frequency_before. fold (frequency_lt a b).
  apply frequency_lt_text_total; auto.
  - intros ->. contradiction.
  - now apply Hall.
Qed.

Lemma ranked_text_frequencies (s : list Frequency) :
  Forall (fun f => is_text_subject (_token f) = true) s ->
  StronglySorted frequency_before s ->
  StronglySorted ranked_before s.
Proof.
  induction s as [| a s IH]; intros HP Hs; [constructor |].
  inversion HP as [| ? ? Pa Ps]; subst.
  inversion Hs as [| ? ? Hs' Hall]; subst.
  constructor; [now apply IH |].
  rewrite Forall_forall in *. intros b Hb.
  apply (frequency_lt_text_true a b Pa (Ps b Hb)). now apply Hall.
Qed.

(** ** Counting with a [dict] *)

Section DictFacts.

Context {K : Type}.
Variable key_eqb : K -> K -> bool.
Variable key_dec : forall a b : K, {a = b} + {a <> b}.
Hypothesis key_eqb_spec : forall a b, key_eqb a b = true <-> a = b.

Lemma key_eqb_refl (k : K) : key_eqb k k = true.
Proof. now apply key_eqb_spec. Qed.

Lemma key_eqb_neq (a b : K) : a <> b -> key_eqb a b = false.
Proof.
  intros H. destruct (key_eqb a b) eqn:E; [| reflexivity].
  apply key_eqb_spec in E. contradiction.
Qed.

Lemma dict_get_set {V : Type} (d : list (K * V)) (k k' : K) (v : V) :
  dict_get key_eqb (dict_set key_eqb d k v) k'
  = if key_dec k k' then Some v else dict_get key_eqb d k'.
Proof.
  induction d as [| [k0 v0] d IH]; simpl.
  - destruct (key_dec k k') as [-> | Hn].
    + now rewrite key_eqb_refl.
    + now rewrite key_eqb_neq.
  - destruct (key_eqb k0 k) eqn:E; simpl.
    + apply key_eqb_spec in E. subst k0.
      destruct (key_dec k k') as [-> | Hn].
      * now rewrite key_eqb_refl.
      * now rewrite key_eqb_neq.
    + destruct (key_eqb k0 k') eqn:E'.
      * apply key_eqb_spec in E'. subst k0.
        destruct (key_dec k k') as [-> | Hn]; [| reflexivity].
        rewrite key_eqb_refl in E. discriminate.
      * exact IH.
Qed.

Lemma dict_get_None {V : Type} (d : list (K * V)) (k : K) :
  dict_get key_eqb d k = None <-> ~ In k (dict_keys d).
Proof.
  induction d as [| [k0 v0] d IH]; simpl.
  - tauto.
  - destruct (key_eqb k0 k) eqn:E.
    + apply key_eqb_spec in E. split; [discriminate | tauto].
    + rewrite IH. split; [| tauto].
      intros H [H' | H']; [| contradiction].
      subst. rewrite key_eqb_refl in E. discriminate.
Qed.

Lemma dict_keys_set {V : Type} (d : list (K * V)) (k : K) (v : V) :
  dict_keys (dict_set key_eqb d k v)
  = if dict_contains key_eqb d k then dict_keys d else dict_keys d ++ [k].
Proof.
  unfold dict_contains.
  induction d as [| [k0 v0] d IH]; simpl; [reflexivity |].
  destruct (key_eqb k0 k) eqn:E; simpl; [reflexivity |].
  unfold dict_keys in *. rewrite IH.
  destruct (dict_get key_eqb d k); reflexivity.
Qed.

Lemma dict_sum_set (d : list (K * Z)) (k : K) (v : Z) :
  dict_sum (dict_set key_eqb d k v)
  = dict_sum d - dict_get_default key_eqb d k 0 + v.
Proof.
  unfold dict_sum, dict_get_default.
  induction d as [| [k0 v0] d IH]; simpl; [lia |].
  destruct (key_eqb k0 k); simpl; lia.
Qed.

(** In a dict the value read under a key is the value stored beside it. *)
Lemma dict_values_by_key (d : list (K * Z)) :
  NoDup (dict_keys d) ->
  map (fun k => dict_get_default key_eqb d k 0) (dict_keys d) = map snd d.
Proof.
  unfold dict_get_default.
  induction d as [| [k0 v0] d IH]; simpl; intros Hnd; [reflexivity |].
  inversion Hnd as [| ? ? Hk Hnd']; subst.
  rewrite key_eqb_refl. f_equal.
  rewrite <- (IH Hnd'). apply map_ext_in. intros k Hin.
  rewrite key_eqb_neq; [reflexivity |]. intros ->. contradiction.
Qed.

Lemma counted_step (d : list (K * Z)) (seen : list K) (k : K) :
  counted key_eqb key_dec d seen -> counted key_eqb key_dec (count_step key_eqb d k) (seen ++ [k]).
Proof.
  intros (Hnd & Hin & Hval & Hsum). unfold count_step.
  assert (Hc : dict_contains key_eqb d k = true <-> In k (dict_keys d)).
  { unfold dict_contains.
    destruct (dict_get key_eqb d k) eqn:E.
    - split; [intros _ | reflexivity].
      destruct (in_dec key_dec k (dict_keys d)) as [H | H]; [assumption |].
      apply dict_get_None in H. congruence.
    - apply dict_get_None in E. split; [discriminate | contradiction]. }
  repeat split.
  - rewrite dict_keys_set.
    destruct (dict_contains key_eqb d k) eqn:E; [assumption |].
    apply NoDup_app; [assumption | repeat constructor; auto | ].
    intros x Hx [<- | []]. apply Hc in Hx. congruence.
  - rewrite dict_keys_set, in_app_iff.
    destruct (dict_contains key_eqb d k) eqn:E.
    + intros H. left. now apply Hin.
    + rewrite in_app_iff. intros [H | H]; [left; now apply Hin | now right].
  - rewrite dict_keys_set, in_app_iff.
    destruct (dict_contains key_eqb d k) eqn:E.
    + intros [H | [<- | []]]; [now apply Hin | now apply Hc].
    + rewrite in_app_iff. intros [H | H]; [left; now apply Hin | now right].
  - intros k'. unfold dict_get_default at 1. rewrite dict_get_set.
    rewrite count_occ_app. simpl.
    destruct (key_dec k k') as [-> | Hn].
    + rewrite Hval. lia.
    + fold (dict_get_default key_eqb d k' 0). rewrite Hval. lia.
  - rewrite dict_sum_set, Hsum, length_app. simpl. lia.
Qed.

Lemma counted_fold (ks : list K) (d : list (K * Z)) (seen : list K) :
  counted key_eqb key_dec d seen ->
  counted key_eqb key_dec (fold_left (count_step key_eqb) ks d) (seen ++ ks).
Proof.
  revert d seen. induction ks as [| k ks IH]; intros d seen H; simpl.
  - now rewrite app_nil_r.
  - replace (seen ++ k :: ks) with ((seen ++ [k]) ++ ks)
      by (rewrite <- app_assoc; reflexivity).
    apply IH. now apply counted_step.
Qed.

Lemma counted_all (ks : list K) :
  counted key_eqb key_dec (fold_left (count_step key_eqb) ks []) ks.
Proof.
  apply (counted_fold ks [] []). repeat split; simpl; try tauto; constructor.
Qed.

(** Every key of the dict is stored with its count, which is positive. *)
Lemma counted_get (d : list (K * Z)) (seen : list K) (k : K) :
  counted key_eqb key_dec d seen -> In k (dict_keys d) ->
  dict_get key_eqb d k = Some (Z.of_nat (count_occ key_dec seen k))
  /\ 0 < Z.of_nat (count_occ key_dec seen k).
Proof.
  intros (Hnd & Hin & Hval & Hsum) Hk.
  split.
  - specialize (Hval k). unfold dict_get_default in Hval.
    destruct (dict_get key_eqb d k) eqn:E; [congruence |].
    apply dict_get_None in E. contradiction.
  - apply Hin in Hk. apply (count_occ_In key_dec) in Hk. lia.
Qed.

End DictFacts.

(** ** Loops *)

Lemma for_each_append {A B : Type} (g : A -> result B) (h : A -> B)
  (l : list A) (acc : list B) :
  (forall x, In x l -> g x = Ok (h x)) ->
  for_each (fun acc x => f <- g x ;; Ok (acc ++ [f])) l acc = Ok (acc ++ map h l).
Proof.
  revert acc. induction l as [| x l IH]; intros acc H; simpl.
  - now rewrite app_nil_r.
  - rewrite (H x (or_introl eq_refl)). simpl.
    rewrite IH by (intros y Hy; apply H; now right).
    now rewrite <- app_assoc.
Qed.

Lemma for_each_pure {A S : Type} (body : S -> A -> result S) (step : S -> A -> S)
  (l : list A) (acc : S) :
  (forall s x, In x l -> body s x = Ok (step s x)) ->
  for_each body l acc = Ok (fold_left step l acc).
Proof.
  revert acc. induction l as [| x l IH]; intros acc H; simpl; [reflexivity |].
  rewrite (H acc x (or_introl eq_refl)). simpl.
  apply IH. intros s y Hy. apply H. now right.
Qed.

Lemma total_count_permutation (l s : list Frequency) :
  Permutation l s -> total_count l = total_count s.
Proof.
  unfold total_count. induction 1; simpl; lia.
Qed.

(** ** From the counts to the sorted list of records

    The second half of both counting functions: one record per key of the
    dict, then [list.sort]. *)

Section CountsToFrequencies.

Context {K : Type}.
Variable key_eqb : K -> K -> bool.
Variable key_dec : forall a b : K, {a = b} + {a <> b}.
Hypothesis key_eqb_spec : forall a b, key_eqb a b = true <-> a = b.

(** A key as the object handed to the constructor, and as a subject. *)
Variable obj : K -> pyobj.
Variable subj : K -> subject.
Hypothesis init_accepts :
  forall k n, 0 <= n -> Frequency.__init__ (obj k) (OInt n) = Ok (mkFrequency (subj k) n).
Hypothesis subj_inj : forall a b, subj a = subj b -> a = b.

(** The keys counted, each of which is made of [str] tokens. *)
Variable ks : list K.
Hypothesis subj_text : forall k, In k ks -> is_text_subject (subj k) = true.

Lemma frequencies_of_counts :
  exists s,
    (freq_list <-
       for_each
         (fun freq_list k =>
            f <- Frequency.__init__
                   (obj k)
                   (obj_of_count
                      (dict_get key_eqb (fold_left (count_step key_eqb) ks []) k)) ;;
            Ok (freq_list ++ [f]))
         (dict_keys (fold_left (count_step key_eqb) ks [])) [] ;;
     list_sort frequency_lt freq_list) = Ok s
    /\ NoDup (map _token s)
    /\ (forall f, In f s
                  <-> exists k, In k ks
                                /\ f = mkFrequency (subj k)
                                                   (Z.of_nat (count_occ key_dec ks k)))
    /\ total_count s = Z.of_nat (List.length ks)
    /\ StronglySorted frequency_before s
    /\ StronglySorted ranked_before s.
Proof.
  pose proof (counted_all key_eqb key_dec key_eqb_spec ks) as Hc.
  set (d := fold_left (count_step key_eqb) ks []) in *.
  set (h := fun k => mkFrequency (subj k) (Z.of_nat (count_occ key_dec ks k))).
  assert (E : for_each
                (fun freq_list k =>
                   f <- Frequency.__init__
                          (obj k) (obj_of_count (dict_get key_eqb d k)) ;;
                   Ok (freq_list ++ [f]))
                (dict_keys d) [] = Ok (map h (dict_keys d))).
  { apply (for_each_append
             (fun k => Frequency.__init__
                         (obj k) (obj_of_count (dict_get key_eqb d k)))
             h (dict_keys d) []).
    intros k Hk.
    destruct (counted_get key_eqb key_dec key_eqb_spec d ks k Hc Hk) as [Hg Hpos].
    rewrite Hg. simpl. apply init_accepts. lia. }
  rewrite E. simpl bind.
  assert (Htext : Forall (fun f => is_text_subject (_token f) = true)
                         (map h (dict_keys d))).
  { apply Forall_forall. intros f Hf. apply in_map_iff in Hf.
    destruct Hf as [k [<- Hk]]. apply subj_text.
    now apply (proj1 (proj2 Hc)). }
  destruct (list_sort_spec frequency_lt
              (fun f => is_text_subject (_token f) = true)
              frequency_lt_text_defined frequency_lt_text_asym
              frequency_lt_text_trans _ Htext) as [s [Hs [Hperm Hsorted]]].
  destruct Hc as (Hnd & Hin & Hval & Hsum).
  assert (Hnd_tokens : NoDup (map _token s)).
  { apply (Permutation_NoDup (Permutation_map _token Hperm)).
    rewrite map_map. simpl.
    apply Finite.Injective_map_NoDup; [exact subj_inj | exact Hnd]. }
  assert (Htext_s : Forall (fun f => is_text_subject (_token f) = true) s).
  { rewrite Forall_forall in *. intros f Hf. apply Htext.
    now apply (Permutation_in _ (Permutation_sym Hperm)). }
  assert (Hbefore : StronglySorted frequency_before s).
  { apply sorted_text_frequencies;
      [exact Htext_s | now apply (NoDup_map_inv _token) | exact Hsorted]. }
  exists s. split; [exact Hs |]. split; [exact Hnd_tokens |].
  split; [| split; [| split]].
  - intros f. split.
    + intros Hf. apply (Permutation_in _ (Permutation_sym Hperm)) in Hf.
      apply in_map_iff in Hf. destruct Hf as [k [<- Hk]].
      exists k. split; [now apply Hin | reflexivity].
    + intros [k [Hk ->]]. apply (Permutation_in _ Hperm).
      apply in_map_iff. exists k. split; [reflexivity | now apply Hin].
  - rewrite <- (total_count_permutation _ _ Hperm). unfold total_count.
    rewrite map_map. simpl. rewrite <- Hsum. unfold dict_sum.
    rewrite <- (dict_values_by_key key_eqb key_eqb_spec d Hnd).
    f_equal. apply map_ext. intros k. symmetry. apply Hval.
  - exact Hbefore.
  - now apply ranked_text_frequencies.
Qed.

End CountsToFrequencies.

Lemma twogram_key_eqb_iff (g h : TwoGram) : twogram_key_eqb g h = true <-> g = h.
Proof. unfold twogram_key_eqb. simpl. apply pair_slots_eq_iff. Qed.

Lemma fold_left_map_keys {A B S : Type} (step : S -> B -> S) (g : A -> B)
  (l : list A) (acc : S) :
  fold_left (fun s x => step s (g x)) l acc = fold_left step (map g l) acc.
Proof.
  revert acc. induction l as [| x l IH]; intros acc; simpl; [reflexivity | apply IH].
Qed.

(** The first loop of [compute_twogram_freq] counts the consecutive pairs. *)
Lemma twogram_counting_loop (tokens : list string) :
  for_each
    (fun d n =>
       t1 <- getitem tokens n ;;
       t2 <- getitem tokens (n + 1) ;;
       tgram <- TwoGram.__init__ (VStr t1) (VStr t2) ;;
       Ok (dict_set twogram_key_eqb d tgram
                    (dict_get_default twogram_key_eqb d tgram 0 + 1)))
    (seq 0 (List.length tokens - 1)) []
  = Ok (fold_left (count_step twogram_key_eqb) (consecutive_pairs tokens) []).
Proof.
  unfold consecutive_pairs. rewrite <- fold_left_map_keys.
  apply for_each_pure. intros d n Hn.
  apply in_seq in Hn.
  assert (H1 : (n < List.length tokens)%nat) by lia.
  assert (H2 : (n + 1 < List.length tokens)%nat) by lia.
  unfold getitem.
  rewrite (nth_error_nth' tokens EmptyString H1).
  rewrite (nth_error_nth' tokens EmptyString H2). simpl.
  replace (n + 1)%nat with (S n) by lia. reflexivity.
Qed.

(** ** [compute_word_freq] and [compute_twogram_freq] *)

(** C1: for a list of tokens that is not empty, [compute_word_freq] returns
    a list holding exactly one record per different token (no subject occurs
    twice, and the records are those of the tokens of the input, each with
    the number of its occurrences as count); the counts sum to the length of
    the input; and the list is in the order of [Frequency]: every record is
    [<] every later one, that is, it has the higher count or, on equal
    counts, the lower token.  For [None] and for the empty list it returns
    [[]]. *)
Theorem C1_compute_word_freq (first : string) (rest : list string) :
  compute_word_freq None = Ok []
  /\ compute_word_freq (Some []) = Ok []
  /\ exists s,
      compute_word_freq (Some (first :: rest)) = Ok s
      /\ NoDup (map _token s)
      /\ (forall f,
             In f s
             <-> exists t,
                 In t (first :: rest)
                 /\ f = mkFrequency
                          (SStr t)
                          (Z.of_nat (count_occ string_dec (first :: rest) t)))
      /\ total_count s = Z.of_nat (List.length (first :: rest))
      /\ StronglySorted frequency_before s
      /\ StronglySorted ranked_before s.
Proof.
  split; [reflexivity |]. split; [reflexivity |].
  unfold compute_word_freq.
  apply (frequencies_of_counts String.eqb string_dec String.eqb_eq OStr SStr).
  - intros k n Hn. unfold Frequency.__init__. simpl.
    destruct (n <? 0) eqn:E; [| reflexivity]. apply Z.ltb_lt in E. lia.
  - intros a b H. now inversion H.
  - reflexivity.
Qed.

(** C4: for a list of [n >= 2] tokens, [compute_twogram_freq] counts the
    pairing of [tokens[i]] with [tokens[i+1]] for every index [i] of the whole
    list that has a successor: it returns exactly one record per different
    pairing, with the number of indices at which the pairing occurs as
    count, and the counts sum to [n - 1]; the list is in the order of
    [Frequency].  For [None], for the empty list and for a single token it
    returns [[]]. *)
Theorem C4_compute_twogram_freq (first second : string) (rest : list string) :
  compute_twogram_freq None = Ok []
  /\ compute_twogram_freq (Some []) = Ok []
  /\ compute_twogram_freq (Some [first]) = Ok []
  /\ exists s,
      compute_twogram_freq (Some (first :: second :: rest)) = Ok s
      /\ NoDup (map _token s)
      /\ (forall f,
             In f s
             <-> exists g,
                 In g (consecutive_pairs (first :: second :: rest))
                 /\ f = mkFrequency
                          (STwoGram g)
                          (Z.of_nat (count_occ Pair_eq_dec
                                       (consecutive_pairs (first :: second :: rest)) g)))
      /\ total_count s = Z.of_nat (List.length (first :: second :: rest)) - 1
      /\ StronglySorted frequency_before s
      /\ StronglySorted ranked_before s.
Proof.
  split; [reflexivity |]. split; [reflexivity |]. split; [reflexivity |].
  unfold compute_twogram_freq.
  rewrite (twogram_counting_loop (first :: second :: rest)). cbn [bind].
  assert (Hlen : Z.of_nat (List.length (consecutive_pairs (first :: second :: rest)))
                 = Z.of_nat (List.length (first :: second :: rest)) - 1).
  { unfold consecutive_pairs. rewrite length_map, length_seq.
    cbn [List.length]. lia. }
  rewrite <- Hlen.
  apply (frequencies_of_counts twogram_key_eqb Pair_eq_dec twogram_key_eqb_iff
           OTwoGram STwoGram).
  - intros g n Hn. unfold Frequency.__init__. simpl.
    destruct (n <? 0) eqn:E; [| reflexivity]. apply Z.ltb_lt in E. lia.
  - intros a b H. now inversion H.
  - intros g Hg. unfold consecutive_pairs in Hg.
    apply in_map_iff in Hg. destruct Hg as [i [<- _]]. reflexivity.
Qed.

(** ** [print_frequencies] *)

Lemma string_app_assoc (a b c : string) :
  ((a ++ b) ++ c)%string = (a ++ (b ++ c))%string.
Proof. induction a as [| x a IH]; simpl; [reflexivity | now rewrite IH]. Qed.

(** The text [Pair.__str__] returns. *)
Lemma pair_str_text (p : Pair) : fst (Pair.__str__ p) = pair_text p.
Proof. destruct p as [[| s1 | z1] [| s2 | z2]]; reflexivity. Qed.

Lemma token_str_text (f : Frequency) : fst (token_str f) = subject_text (_token f).
Proof.
  unfold token_str, subject_text. destruct (_token f) as [w | g]; [reflexivity |].
  rewrite <- pair_str_text. destruct (Pair.__str__ g). reflexivity.
Qed.

Lemma sum_loop (freqs : list Frequency) (total : Z) :
  fold_left (fun total freq => total + Frequency.freq freq) freqs total
  = total + total_count freqs.
Proof.
  revert total. unfold total_count.
  induction freqs as [| f freqs IH]; intros total; simpl; [lia |].
  rewrite IH. unfold Frequency.freq. lia.
Qed.

Lemma set_contains_iff (s : list Frequency) (f : Frequency) :
  set_contains s f = true <-> In f s.
Proof.
  induction s as [| g s IH]; simpl; [split; [discriminate | tauto] |].
  rewrite orb_true_iff, frequency_key_eqb_iff, IH. tauto.
Qed.

Lemma set_of_list_from (freqs s : list Frequency) :
  NoDup s ->
  NoDup (fold_left (fun s f => if set_contains s f then s else s ++ [f]) freqs s)
  /\ (forall f,
        In f (fold_left (fun s f => if set_contains s f then s else s ++ [f]) freqs s)
        <-> In f s \/ In f freqs).
Proof.
  revert s. induction freqs as [| x freqs IH]; intros s Hs; simpl.
  - split; [assumption | tauto].
  - destruct (set_contains s x) eqn:E.
    + apply set_contains_iff in E.
      destruct (IH s Hs) as [H1 H2]. split; [assumption |].
      intros f. rewrite H2. intuition (subst; auto).
    + assert (Hx : ~ In x s).
      { intros H. apply set_contains_iff in H. congruence. }
      assert (Hs' : NoDup (s ++ [x])).
      { apply NoDup_app; [assumption | repeat constructor; auto |].
        intros y Hy [<- | []]. contradiction. }
      destruct (IH (s ++ [x]) Hs') as [H1 H2]. split; [assumption |].
      intros f. rewrite H2, in_app_iff. simpl. tauto.
Qed.

(** [len(set(freqs))] is the number of different records. *)
Lemma set_of_list_length (freqs : list Frequency) :
  Z.of_nat (List.length (set_of_list freqs)) = distinct_count freqs.
Proof.
  unfold distinct_count, set_of_list. f_equal.
  destruct (set_of_list_from freqs [] (NoDup_nil _)) as [H1 H2].
  apply Permutation_length. apply NoDup_Permutation.
  - exact H1.
  - apply NoDup_nodup.
  - intros f. rewrite H2, nodup_In. simpl. tauto.
Qed.

Lemma print_loop (freqs printed : list Frequency) (out : string) :
  fold_left
    (fun '(printed, out) freq =>
       let '(s, freq') := token_str freq in
       (printed ++ [freq'],
        write out (format_right6 (Frequency.freq freq) ++ " " ++ s ++ newline)%string))
    freqs (printed, out)
  = (printed ++ map (fun f => snd (token_str f)) freqs,
     (out ++ lines_text (map frequency_line freqs))%string).
Proof.
  revert printed out. induction freqs as [| f freqs IH]; intros printed out; simpl.
  - rewrite app_nil_r. f_equal.
    induction out as [| x out IHo]; simpl; [reflexivity | now rewrite <- IHo].
  - pose proof (token_str_text f) as Ht.
    destruct (token_str f) as [t f'] eqn:E. simpl in Ht. subst t.
    rewrite IH. unfold write, frequency_line, Frequency.freq. simpl.
    rewrite <- app_assoc. simpl. now rewrite string_app_assoc.
Qed.








(** ** The order of [float] *)

Lemma SFltb_asym (a b : SpecFloat.spec_float) :
  SpecFloat.SFltb a b = true -> SpecFloat.SFltb b a = false.
Proof.
  unfold SpecFloat.SFltb, SpecFloat.SFcompare.
  destruct a as [sa | sa | | sa ma ea], b as [sb | sb | | sb mb eb]; sf_cases.
Qed.

Lemma SFltb_trans (a b c : SpecFloat.spec_float) :
  SpecFloat.SFltb a b = true -> SpecFloat.SFltb b c = true ->
  SpecFloat.SFltb a c = true.
Proof.
  unfold SpecFloat.SFltb, SpecFloat.SFcompare.
  destruct a as [sa | sa | | sa ma ea], b as [sb | sb | | sb mb eb],
           c as [sc | sc | | sc mc ec]; sf_cases.
Qed.

Lemma SFeqb_ltb_l (a b c : SpecFloat.spec_float) :
  SpecFloat.SFeqb a b = true -> SpecFloat.SFltb a c = SpecFloat.SFltb b c.
Proof.
  unfold SpecFloat.SFeqb, SpecFloat.SFltb, SpecFloat.SFcompare.
  destruct a as [sa | sa | | sa ma ea], b as [sb | sb | | sb mb eb],
           c as [sc | sc | | sc mc ec]; sf_cases.
Qed.

Lemma float_ltb_asym (a b : float) :
  PrimFloat.ltb a b = true -> PrimFloat.ltb b a = false.
Proof. rewrite !FloatAxioms.ltb_spec. apply SFltb_asym. Qed.

Lemma float_ltb_trans (a b c : float) :
  PrimFloat.ltb a b = true -> PrimFloat.ltb b c = true -> PrimFloat.ltb a c = true.
Proof. rewrite !FloatAxioms.ltb_spec. apply SFltb_trans. Qed.

(** Two floats that [==] holds of are below the same floats. *)
Lemma float_eqb_ltb (a b c : float) :
  PrimFloat.eqb a b = true -> PrimFloat.ltb a c = PrimFloat.ltb b c.
Proof. rewrite FloatAxioms.eqb_spec, !FloatAxioms.ltb_spec. apply SFeqb_ltb_l. Qed.

Lemma SFeqb_sym (a b : SpecFloat.spec_float) :
  SpecFloat.SFeqb a b = SpecFloat.SFeqb b a.
Proof.
  unfold SpecFloat.SFeqb, SpecFloat.SFcompare.
  destruct a as [sa | sa | | sa ma ea], b as [sb | sb | | sb mb eb]; sf_cases.
Qed.

Lemma SFltb_total (a b : SpecFloat.spec_float) :
  SpecFloat.SFeqb a a = true -> SpecFloat.SFeqb b b = true ->
  SpecFloat.SFltb a b = false -> SpecFloat.SFltb b a = false ->
  SpecFloat.SFeqb a b = true.
Proof.
  unfold SpecFloat.SFeqb, SpecFloat.SFltb, SpecFloat.SFcompare.
  destruct a as [sa | sa | | sa ma ea], b as [sb | sb | | sb mb eb]; sf_cases.
Qed.

Lemma float_eqb_sym (a b : float) : PrimFloat.eqb a b = PrimFloat.eqb b a.
Proof. rewrite !FloatAxioms.eqb_spec. apply SFeqb_sym. Qed.

Lemma float_ltb_irrefl (a : float) : PrimFloat.ltb a a = false.
Proof.
  destruct (PrimFloat.ltb a a) eqn:E; [| reflexivity].
  pose proof (float_ltb_asym a a E). congruence.
Qed.

(** Of two floats that are numbers, one is below the other or they are
    equal. *)
Lemma float_ltb_total (a b : float) :
  PrimFloat.is_nan a = false -> PrimFloat.is_nan b = false ->
  PrimFloat.ltb a b = false -> PrimFloat.ltb b a = false ->
  PrimFloat.eqb a b = true.
Proof.
  unfold PrimFloat.is_nan. rewrite !negb_false_iff.
  rewrite !FloatAxioms.eqb_spec, !FloatAxioms.ltb_spec. apply SFltb_total.
Qed.

(** ** Positions in a list *)

Lemma before_cons {A : Type} (x : A) (l : list A) (a b : A) :
  before l a b -> before (x :: l) a b.
Proof.
  intros (l1 & l2 & -> & Ha & Hb). exists (x :: l1), l2.
  repeat split; simpl; auto.
Qed.

Lemma before_head {A : Type} (a : A) (l : list A) (b : A) :
  In b l -> before (a :: l) a b.
Proof. intros Hb. exists [a], l. repeat split; simpl; auto. Qed.

Lemma before_cons_inv {A : Type} (x : A) (l : list A) (a b : A) :
  before (x :: l) a b -> (a = x /\ In b l) \/ before l a b.
Proof.
  intros (l1 & l2 & E & Ha & Hb). destruct l1 as [| y l1]; [contradiction |].
  simpl in E. injection E as <- ->. destruct Ha as [<- | Ha].
  - left. split; [reflexivity |]. apply in_or_app. now right.
  - right. exists l1, l2. auto.
Qed.

Lemma before_rev {A : Type} (l : list A) (a b : A) :
  before l a b -> before (rev l) b a.
Proof.
  intros (l1 & l2 & -> & Ha & Hb). exists (rev l2), (rev l1).
  rewrite rev_app_distr. repeat split; now apply -> in_rev.
Qed.

Lemma sorted_before {A : Type} (R : A -> A -> Prop) (l : list A) (a b : A) :
  StronglySorted R l -> before l a b -> R a b.
Proof.
  intros Hs. induction Hs as [| x l Hs IH Hx]; intros Hb.
  - destruct Hb as (l1 & l2 & E & Ha & _).
    symmetry in E. apply app_eq_nil in E. destruct E as [-> _]. contradiction.
  - apply before_cons_inv in Hb. destruct Hb as [[-> Hb] | Hb]; [| now apply IH].
    rewrite Forall_forall in Hx. now apply Hx.
Qed.

Lemma in_firstn {A : Type} (l : list A) (n : nat) (x : A) :
  In x (firstn n l) -> In x l.
Proof.
  intros H. rewrite <- (firstn_skipn n l). apply in_or_app. now left.
Qed.

(** In a list without repetition, what stands before an element of a prefix
    is in the prefix. *)
Lemma before_firstn {A : Type} (l : list A) (a b : A) (n : nat) :
  NoDup l -> before l a b -> In b (firstn n l) -> In a (firstn n l).
Proof.
  intros Hnd (l1 & l2 & -> & Ha & Hb) Hin.
  rewrite firstn_app in *. apply in_or_app.
  destruct (Nat.le_gt_cases (List.length l1) n) as [Hle | Hgt].
  - left. now rewrite firstn_all2.
  - replace (n - List.length l1)%nat with 0%nat in Hin by lia.
    simpl in Hin. rewrite app_nil_r in Hin. apply in_firstn in Hin.
    exfalso. revert Hnd Hin Hb. clear. induction l1 as [| x l1 IH]; simpl.
    + contradiction.
    + intros Hnd [<- | Hin] Hb.
      * inversion Hnd as [| ? ? Hx _]. apply Hx. apply in_or_app. now right.
      * inversion Hnd. now apply IH.
Qed.

Lemma before_in {A : Type} (l : list A) (a b : A) :
  before l a b -> In a l /\ In b l.
Proof.
  intros (l1 & l2 & -> & Ha & Hb). split; apply in_or_app; auto.
Qed.

Lemma before_asym {A : Type} (l : list A) (a b : A) :
  NoDup l -> before l a b -> before l b a -> False.
Proof.
  induction l as [| x l IH]; intros Hnd H1 H2.
  - apply before_in in H1. now destruct H1.
  - inversion Hnd as [| ? ? Hx Hnd']; subst.
    apply before_cons_inv in H1. apply before_cons_inv in H2.
    destruct H1 as [[-> Hb] | H1], H2 as [[-> Ha] | H2].
    + contradiction.
    + apply before_in in H2. now destruct H2.
    + apply before_in in H1. now destruct H1.
    + now apply IH.
Qed.

Lemma before_total {A : Type} (l : list A) (a b : A) :
  In a l -> In b l -> a <> b -> before l a b \/ before l b a.
Proof.
  induction l as [| x l IH]; simpl; intros Ha Hb Hne; [contradiction |].
  destruct Ha as [-> | Ha], Hb as [-> | Hb].
  - congruence.
  - left. now apply before_head.
  - right. now apply before_head.
  - destruct (IH Ha Hb Hne); [left | right]; now apply before_cons.
Qed.

Lemma sorted_of_before {A : Type} (R : A -> A -> Prop) (l : list A) :
  (forall a b, before l a b -> R a b) -> StronglySorted R l.
Proof.
  induction l as [| x l IH]; intros H; constructor.
  - apply IH. intros a b Hb. apply H. now apply before_cons.
  - apply Forall_forall. intros b Hb. apply H. now apply before_head.
Qed.

(** Two lists with the same elements, sorted by an order that never holds
    both ways, are the same list. *)
Lemma sorted_unique {A : Type} (R : A -> A -> Prop) (l1 l2 : list A) :
  (forall a b, R a b -> R b a -> False) ->
  StronglySorted R l1 -> StronglySorted R l2 ->
  (forall x, In x l1 <-> In x l2) ->
  l1 = l2.
Proof.
  intros Hasym. revert l2. induction l1 as [| a l1 IH]; intros l2 H1 H2 Hin.
  - destruct l2 as [| b l2]; [reflexivity |].
    exfalso. apply (Hin b). now left.
  - destruct l2 as [| b l2]; [exfalso; apply (Hin a); now left |].
    inversion H1 as [| ? ? S1 F1]; subst. inversion H2 as [| ? ? S2 F2]; subst.
    rewrite Forall_forall in F1, F2.
    assert (Hab : a = b).
    { destruct (proj1 (Hin a) (or_introl eq_refl)) as [E | Ha]; [now symmetry |].
      destruct (proj2 (Hin b) (or_introl eq_refl)) as [E | Hb]; [assumption |].
      exfalso. exact (Hasym a b (F1 b Hb) (F2 a Ha)). }
    subst b. f_equal. apply IH; try assumption.
    intros x. split; intros Hx.
    + destruct (proj1 (Hin x) (or_intror Hx)) as [E | Hx']; [| assumption].
      subst x. exfalso. exact (Hasym a a (F1 a Hx) (F1 a Hx)).
    + destruct (proj2 (Hin x) (or_intror Hx)) as [E | Hx']; [| assumption].
      subst x. exfalso. exact (Hasym a a (F2 a Hx) (F2 a Hx)).
Qed.

(** ** [list.sort] is stable *)

Section SortStable.

Context {A : Type}.
Variable lt : A -> A -> result bool.
Variable tie : A -> A -> Prop.

Hypothesis lt_defined : forall x y, exists b, lt x y = Ok b.
Hypothesis lt_asym : forall x y, lt x y = Ok true -> lt y x = Ok false.
Hypothesis lt_trans :
  forall x y z, lt x y = Ok true -> lt y z = Ok true -> lt x z = Ok true.
Hypothesis tie_lt : forall a p y, tie a p -> lt p y = lt a y.

Lemma sort_insert_stable (pivot : A) (sorted s : list A) :
  StronglySorted (not_after lt) sorted ->
  sort_insert lt pivot sorted = Ok s ->
  (forall a b, before sorted a b -> before s a b)
  /\ (forall a, In a sorted -> tie a pivot -> before s a pivot)
  /\ (forall a, In a s <-> a = pivot \/ In a sorted).
Proof.
  revert s. induction sorted as [| y rest IH]; intros s Hs; simpl.
  - intros E. injection E as <-. split; [| split].
    + intros a b (l1 & l2 & E & Ha & _).
      symmetry in E. apply app_eq_nil in E. destruct E as [-> _]. contradiction.
    + intros a [].
    + intros a. simpl. intuition congruence.
  - inversion Hs as [| ? ? Hrest Hy]; subst.
    destruct (lt pivot y) as [[|] | e] eqn:Hc; simpl; try discriminate.
    + intros E. injection E as <-. split; [| split].
      * intros a b. apply before_cons.
      * intros a Ha Ht. exfalso.
        pose proof (tie_lt a pivot y Ht) as Hty. rewrite Hc in Hty.
        destruct Ha as [<- | Ha].
        -- symmetry in Hty. pose proof (lt_asym _ _ Hty). congruence.
        -- rewrite Forall_forall in Hy. specialize (Hy a Ha).
           unfold not_after in Hy. congruence.
      * intros a. simpl. intuition congruence.
    + destruct (sort_insert lt pivot rest) as [s' | e] eqn:Hi; simpl; try discriminate.
      intros E. injection E as <-.
      destruct (IH s' Hrest eq_refl) as (H1 & H2 & H3).
      split; [| split].
      * intros a b Hb. apply before_cons_inv in Hb.
        destruct Hb as [[-> Hb] | Hb].
        -- apply before_head. apply H3. now right.
        -- apply before_cons. now apply H1.
      * intros a [<- | Ha] Ht.
        -- apply before_head. apply H3. now left.
        -- apply before_cons. now apply H2.
      * intros a. simpl. rewrite H3. intuition congruence.
Qed.

Lemma list_sort_from_stable (l acc s : list A) :
  StronglySorted (not_after lt) acc ->
  for_each (fun sorted pivot => sort_insert lt pivot sorted) l acc = Ok s ->
  forall a b, tie a b ->
              before acc a b \/ (In a acc /\ In b l) \/ before l a b ->
              before s a b.
Proof.
  assert (Hdef : forall x y, (fun _ : A => True) x -> (fun _ : A => True) y ->
                             exists b, lt x y = Ok b) by (intros; apply lt_defined).
  assert (Hasym : forall x y, (fun _ : A => True) x -> (fun _ : A => True) y ->
                              lt x y = Ok true -> lt y x = Ok false)
    by (intros; now apply lt_asym).
  assert (Htrans : forall x y z, (fun _ : A => True) x -> (fun _ : A => True) y ->
                                 (fun _ : A => True) z ->
                                 lt x y = Ok true -> lt y z = Ok true -> lt x z = Ok true)
    by (intros; eapply lt_trans; eassumption).
  revert acc. induction l as [| x l IH]; intros acc Hs; simpl.
  - intros E. injection E as <-. intros a b _ [H | [[_ []] | H]]; [assumption |].
    destruct H as (l1 & l2 & E & Ha & _).
    symmetry in E. apply app_eq_nil in E. destruct E as [-> _]. contradiction.
  - destruct (sort_insert lt x acc) as [s1 | e] eqn:Hi; simpl; try discriminate.
    intros E a b Ht H.
    destruct (sort_insert_stable x acc s1 Hs Hi) as (H1 & H2 & H3).
    assert (Hs1 : StronglySorted (not_after lt) s1).
    { assert (Hall : Forall (fun _ : A => True) acc)
        by (apply Forall_forall; intros; exact I).
      destruct (sort_insert_spec lt (fun _ => True) Hdef Hasym Htrans x acc I Hall Hs)
        as [s' [E' [_ Hs']]].
      rewrite Hi in E'. injection E' as <-. exact Hs'. }
    apply (IH s1 Hs1 E a b Ht).
    destruct H as [H | [[Ha Hb] | H]].
    + left. now apply H1.
    + destruct Hb as [<- | Hb].
      * left. now apply H2.
      * right. left. split; [apply H3; now right | assumption].
    + apply before_cons_inv in H. destruct H as [[-> Hb] | H].
      * right. left. split; [apply H3; now left | assumption].
      * right. right. assumption.
Qed.

End SortStable.

(** ** [sorted] by descending score *)

Lemma score_lt_defined (x y : string * float) : exists b, score_lt x y = Ok b.
Proof. unfold score_lt. eauto. Qed.

Lemma score_lt_asym (x y : string * float) :
  score_lt x y = Ok true -> score_lt y x = Ok false.
Proof.
  unfold score_lt. intros H. injection H as H. f_equal. now apply float_ltb_asym.
Qed.

Lemma score_lt_trans (x y z : string * float) :
  score_lt x y = Ok true -> score_lt y z = Ok true -> score_lt x z = Ok true.
Proof.
  unfold score_lt. intros H1 H2. injection H1 as H1. injection H2 as H2.
  f_equal. eapply float_ltb_trans; eassumption.
Qed.

Lemma score_tie_lt (a p y : string * float) :
  PrimFloat.eqb (snd p) (snd a) = true -> score_lt p y = score_lt a y.
Proof. unfold score_lt. intros H. f_equal. now apply float_eqb_ltb. Qed.

(** [sorted(items, key=score, reverse=True)] returns the items with no item
    scoring below a later one, and two items of equal score in the order
    they had. *)
Lemma sorted_by_score_reverse_spec (items : list (string * float)) :
  exists sorted_all,
    sorted_by_score_reverse items = Ok sorted_all
    /\ Permutation items sorted_all
    /\ (forall a b, before sorted_all a b -> PrimFloat.ltb (snd a) (snd b) = false)
    /\ (forall a b, before items a b -> PrimFloat.eqb (snd a) (snd b) = true ->
                    before sorted_all a b).
Proof.
  unfold sorted_by_score_reverse.
  assert (Hall : Forall (fun _ : string * float => True) (rev items))
    by (apply Forall_forall; intros; exact I).
  destruct (list_sort_spec score_lt (fun _ => True)
              (fun x y _ _ => score_lt_defined x y)
              (fun x y _ _ => score_lt_asym x y)
              (fun x y z _ _ _ => score_lt_trans x y z)
              (rev items) Hall) as [s [Hs [Hperm Hsorted]]].
  rewrite Hs. simpl. exists (rev s). split; [reflexivity |]. split; [| split].
  - apply perm_trans with (rev items); [apply Permutation_rev |].
    apply perm_trans with s; [assumption | apply Permutation_rev].
  - intros a b Hb.
    apply before_rev in Hb. rewrite rev_involutive in Hb.
    pose proof (sorted_before _ _ _ _ Hsorted Hb) as H.
    unfold not_after, score_lt in H. now injection H.
  - intros a b Hb Ht. apply before_rev in Hb.
    apply before_rev.
    apply (list_sort_from_stable score_lt
             (fun x y => PrimFloat.eqb (snd y) (snd x) = true)
             score_lt_defined score_lt_asym score_lt_trans score_tie_lt
             (rev items) [] s).
    + constructor.
    + exact Hs.
    + exact Ht.
    + right. right. exact Hb.
Qed.

(** ** [get_top_k_sets] *)

Lemma dict_of_pairs_contains (pairs d : list (string * float)) (t : string) :
  dict_contains String.eqb
    (fold_left (fun d item => dict_set String.eqb d (fst item) (snd item)) pairs d) t
  = true
  <-> dict_contains String.eqb d t = true \/ In t (map fst pairs).
Proof.
  revert d. induction pairs as [| [k v] pairs IH]; intros d; simpl.
  - tauto.
  - rewrite IH. unfold dict_contains at 1.
    rewrite (dict_get_set String.eqb string_dec String.eqb_eq).
    destruct (string_dec k t) as [-> | Hn].
    + split; [now right; left | now left].
    + fold (dict_contains String.eqb d t). intuition congruence.
Qed.

(** A document is returned when its title is the key of a selected item. *)
Lemma selected_title (selected : list (string * float)) (t : string) :
  dict_contains String.eqb (dict_of_pairs selected) t = true
  <-> In t (map fst selected).
Proof.
  unfold dict_of_pairs. rewrite dict_of_pairs_contains. simpl.
  split; [intros [H | H]; [discriminate | assumption] | now right].
Qed.

Lemma slice_to_prefix {A : Type} (l : list A) (k : Z) :
  exists n, slice_to l k = firstn n l.
Proof. unfold slice_to. destruct (k <? 0); eauto. Qed.

(** In a dict an item is known by its key. *)
Lemma item_by_key {V : Type} (l : list (string * V)) (k : string) (v v' : V) :
  NoDup (map fst l) -> In (k, v) l -> In (k, v') l -> v = v'.
Proof.
  induction l as [| [k0 v0] l IH]; simpl; intros Hnd H1 H2; [contradiction |].
  inversion Hnd as [| ? ? Hk Hnd']; subst.
  destruct H1 as [H1 | H1], H2 as [H2 | H2].
  - congruence.
  - injection H1 as -> ->. exfalso. apply Hk.
    apply in_map_iff. exists (k, v'). auto.
  - injection H2 as -> ->. exfalso. apply Hk.
    apply in_map_iff. exists (k, v). auto.
  - now apply IH.
Qed.

Lemma filter_length_bound {A : Type} (f : A -> bool) (l : list A) :
  (List.length (filter f l) <= List.length l)%nat.
Proof.
  induction l as [| x l IH]; simpl; [lia |]. destruct (f x); simpl; lia.
Qed.

Lemma NoDup_filter_map {A B : Type} (g : A -> B) (f : A -> bool) (l : list A) :
  NoDup (map g l) -> NoDup (map g (filter f l)).
Proof.
  induction l as [| x l IH]; simpl; intros Hnd; [constructor |].
  inversion Hnd as [| ? ? Hx Hnd']; subst.
  destruct (f x); simpl; [| now apply IH].
  constructor; [| now apply IH].
  intros H. apply Hx. apply in_map_iff in H. destruct H as [y [E Hy]].
  apply filter_In in Hy. apply in_map_iff. exists y. tauto.
Qed.

(** A selected title, with the score the mapping gives it, is a selected item. *)
Lemma selected_item (items sorted_all : list (string * float)) (n : nat)
  (t : string) (s : float) :
  Permutation items sorted_all -> NoDup (map fst items) ->
  In t (map fst (firstn n sorted_all)) -> In (t, s) items ->
  In (t, s) (firstn n sorted_all).
Proof.
  intros Hperm Hnd Ht Hts.
  apply in_map_iff in Ht. destruct Ht as [[t0 s0] [E H0]]. simpl in E. subst t0.
  assert (Hnd' : NoDup (map fst sorted_all))
    by exact (Permutation_NoDup (Permutation_map fst Hperm) Hnd).
  assert (E : s0 = s).
  { apply (item_by_key sorted_all t s0 s Hnd').
    - now apply in_firstn in H0.
    - now apply (Permutation_in _ Hperm). }
  now subst.
Qed.

Lemma ranks_above_asym (query_result : list (string * float))
  (a b : string * float) :
  NoDup query_result ->
  ranks_above query_result a b -> ranks_above query_result b a -> False.
Proof.
  intros Hnd [H1 | [E1 B1]] [H2 | [E2 B2]].
  - pose proof (float_ltb_asym _ _ H1). congruence.
  - rewrite (float_eqb_ltb _ _ (snd a) E2), float_ltb_irrefl in H1. discriminate.
  - rewrite (float_eqb_ltb _ _ (snd b) E1), float_ltb_irrefl in H2. discriminate.
  - exact (before_asym _ _ _ Hnd B1 B2).
Qed.

(** When no score is NaN, [sorted(items, key=score, reverse=True)] is the
    ranking of the score mapping: its items, each ranking above the ones
    after it.  There is one such list only. *)
Lemma sorted_by_score_reverse_ranking (query_result : list (string * float)) :
  NoDup (map fst query_result) ->
  Forall (fun item => PrimFloat.is_nan (snd item) = false) query_result ->
  exists ranking,
    sorted_by_score_reverse query_result = Ok ranking
    /\ Permutation query_result ranking
    /\ StronglySorted (ranks_above query_result) ranking
    /\ (forall ranking',
          Permutation query_result ranking' ->
          StronglySorted (ranks_above query_result) ranking' ->
          ranking' = ranking).
Proof.
  intros Hkeys Hnum.
  destruct (sorted_by_score_reverse_spec query_result)
    as [sa [Hs [Hperm [Hdesc Hstable]]]].
  assert (Hnd : NoDup query_result) by exact (NoDup_map_inv fst _ Hkeys).
  assert (Hnd_sa : NoDup sa) by exact (Permutation_NoDup Hperm Hnd).
  assert (Hsorted : StronglySorted (ranks_above query_result) sa).
  { apply sorted_of_before. intros a b Hb.
    destruct (before_in _ _ _ Hb) as [Ha Hb'].
    apply (Permutation_in _ (Permutation_sym Hperm)) in Ha, Hb'.
    rewrite Forall_forall in Hnum.
    destruct (PrimFloat.ltb (snd b) (snd a)) eqn:E; [now left |].
    right.
    assert (Heq : PrimFloat.eqb (snd a) (snd b) = true).
    { apply float_ltb_total; auto. }
    split; [exact Heq |].
    assert (Hne : a <> b).
    { intros ->. exact (before_asym _ _ _ Hnd_sa Hb Hb). }
    destruct (before_total _ _ _ Ha Hb' Hne) as [H | H]; [exact H |].
    exfalso. apply (before_asym _ _ _ Hnd_sa Hb).
    apply Hstable; [exact H |]. now rewrite float_eqb_sym. }
  exists sa. split; [exact Hs |]. split; [exact Hperm |]. split; [exact Hsorted |].
  intros ranking' Hperm' Hsorted'.
  apply (sorted_unique (ranks_above query_result)); try assumption.
  - intros a b. now apply ranks_above_asym.
  - intros x. split; intros Hx.
    + apply (Permutation_in _ Hperm).
      now apply (Permutation_in _ (Permutation_sym Hperm')).
    + apply (Permutation_in _ Hperm').
      now apply (Permutation_in _ (Permutation_sym Hperm)).
Qed.

(** The test [set.title in dict(sorted_result)]. *)
Lemma selected_title_test (selected : list (string * float)) (t : string) :
  dict_contains String.eqb (dict_of_pairs selected) t
  = existsb (String.eqb t) (map fst selected).
Proof.
  apply eq_true_iff_eq. rewrite selected_title, existsb_exists. split.
  - intros H. exists t. split; [exact H | apply String.eqb_refl].
  - intros [x [Hx E]]. apply String.eqb_eq in E. now subst.
Qed.

(** C3, as the code has it: for [k >= 0], a corpus whose titles are
    distinct and a score mapping (a dict: its keys are distinct) none of
    whose scores is NaN, [get_top_k_sets] returns the documents of the
    corpus, in the order of the corpus and not in the order of their scores,
    whose title is among the first [k] items of the ranking of the score
    mapping.  The ranking is the one list of the items of the mapping in
    which every item ranks above the later ones: by a higher score or, for
    equal scores, by coming first in the mapping.  So at most
    [min(k, number of documents)] documents are returned; no document of the
    corpus that is left out scores above a returned one; between two
    documents of equal score the one whose title comes first in the score
    mapping is preferred; and when every scored title is a title of the
    corpus, exactly [min(k, number of scores)] documents are returned. *)
Theorem C3_get_top_k_sets (self : LegoCorpus)
  (query_result : list (string * float)) (k : Z) :
  0 <= k ->
  NoDup (map title (docs self)) ->
  NoDup (map fst query_result) ->
  Forall (fun item => PrimFloat.is_nan (snd item) = false) query_result ->
  exists ranking r,
    Permutation query_result ranking
    /\ StronglySorted (ranks_above query_result) ranking
    /\ (forall ranking',
          Permutation query_result ranking' ->
          StronglySorted (ranks_above query_result) ranking' ->
          ranking' = ranking)
    /\ get_top_k_sets self query_result k = Ok r
    /\ r = documents_titled (map fst (firstn (Z.to_nat k) ranking)) (docs self)
    /\ Z.of_nat (List.length r) <= Z.min k (Z.of_nat (List.length (docs self)))
    /\ (forall d d' s s',
           In d r -> In d' (docs self) -> ~ In d' r ->
           In (title d, s) query_result -> In (title d', s') query_result ->
           PrimFloat.ltb s s' = false)
    /\ (forall d d' s s',
           In d (docs self) -> In d' r ->
           before query_result (title d, s) (title d', s') ->
           PrimFloat.eqb s s' = true ->
           In d r)
    /\ ((forall t, In t (map fst query_result) -> In t (map title (docs self))) ->
        Z.of_nat (List.length r) = Z.min k (Z.of_nat (List.length query_result))).
Proof.
  intros Hk Hdocs Hqr Hnum.
  destruct (sorted_by_score_reverse_ranking query_result Hqr Hnum)
    as [sa [Hs [Hperm [Hsorted Hunique]]]].
  destruct (sorted_by_score_reverse_spec query_result)
    as [sa' [Hs' [_ [Hdesc Hstable]]]].
  rewrite Hs in Hs'. injection Hs' as <-.
  unfold get_top_k_sets. rewrite Hs. cbn [bind].
  assert (Hsel : slice_to sa k = firstn (Z.to_nat k) sa).
  { unfold slice_to. destruct (k <? 0) eqn:E; [| reflexivity].
    apply Z.ltb_lt in E. lia. }
  rewrite Hsel. set (n := Z.to_nat k).
  set (r := filter (fun set => dict_contains String.eqb
                                 (dict_of_pairs (firstn n sa)) (title set))
                   (docs self)).
  assert (Hin : forall d, In d r <-> In d (docs self)
                                     /\ In (title d) (map fst (firstn n sa))).
  { intros d. unfold r. rewrite filter_In, selected_title. tauto. }
  assert (Hnd_keys : NoDup (map fst sa))
    by exact (Permutation_NoDup (Permutation_map fst Hperm) Hqr).
  assert (Hnd_sa : NoDup sa) by exact (NoDup_map_inv fst sa Hnd_keys).
  assert (Hupper : (List.length r <= List.length (firstn n sa))%nat).
  { rewrite <- (length_map title r), <- (length_map fst (firstn n sa)).
    apply NoDup_incl_length.
    - unfold r. now apply NoDup_filter_map.
    - intros t Ht. apply in_map_iff in Ht. destruct Ht as [d [<- Hd]].
      now apply Hin in Hd. }
  exists sa, r.
  split; [exact Hperm |]. split; [exact Hsorted |]. split; [exact Hunique |].
  split; [reflexivity |].
  split; [| split; [| split; [| split]]].
  - (* the documents titled by the first k items, in the order of the corpus *)
    unfold r, documents_titled. apply filter_ext. intros d.
    apply selected_title_test.
  - (* the bound *)
    apply Z.min_glb.
    + pose proof (firstn_le_length n sa). lia.
    + pose proof (filter_length_bound
                    (fun set => dict_contains String.eqb
                                  (dict_of_pairs (firstn n sa)) (title set))
                    (docs self)).
      fold r in H. lia.
  - (* no document left out scores above a returned one *)
    intros d d' s s' Hd Hd' Hout Hds Hds'.
    apply (Hdesc (title d, s) (title d', s')). exists (firstn n sa), (skipn n sa).
    split; [now rewrite firstn_skipn |]. split.
    + apply (selected_item query_result sa n _ _ Hperm Hqr); [| assumption].
      now apply Hin in Hd.
    + apply (Permutation_in _ Hperm) in Hds'.
      rewrite <- (firstn_skipn n sa) in Hds'. apply in_app_or in Hds'.
      destruct Hds' as [H | H]; [| assumption].
      exfalso. apply Hout. apply Hin. split; [assumption |].
      apply in_map_iff. exists (title d', s'). auto.
  - (* ties *)
    intros d d' s s' Hd Hd' Hb Ht.
    apply Hin. split; [assumption |].
    assert (Hd's : In (title d', s') query_result).
    { destruct Hb as (l1 & l2 & -> & _ & H). apply in_or_app. now right. }
    assert (Hsel' : In (title d', s') (firstn n sa)).
    { apply (selected_item query_result sa n _ _ Hperm Hqr); [| assumption].
      now apply Hin in Hd'. }
    pose proof (before_firstn sa _ _ n Hnd_sa (Hstable _ _ Hb Ht) Hsel') as H.
    apply in_map_iff. exists (title d, s). auto.
  - (* as many documents as selected items *)
    intros Hall.
    assert (H : (List.length (firstn n sa) <= List.length r)%nat).
    { rewrite <- (length_map title r), <- (length_map fst (firstn n sa)).
      apply NoDup_incl_length.
      - rewrite <- firstn_map.
        rewrite <- (firstn_skipn n (map fst sa)) in Hnd_keys.
        now apply NoDup_app_remove_r in Hnd_keys.
      - intros t Ht.
        assert (Ht' : In t (map title (docs self))).
        { apply Hall.
          apply (Permutation_in _ (Permutation_sym (Permutation_map fst Hperm))).
          rewrite <- firstn_map in Ht. now apply in_firstn in Ht. }
        apply in_map_iff in Ht'. destruct Ht' as [d [<- Hd]].
        apply in_map_iff. exists d. split; [reflexivity |].
        apply Hin. auto. }
    rewrite length_firstn in H, Hupper.
    pose proof (Permutation_length Hperm). lia.
Qed.

Lemma C3_get_top_k_sets_witness :
  0 <= 1
  /\ NoDup (map title (docs corpus_AB))
  /\ NoDup (map fst scores_AB)
  /\ Forall (fun item => PrimFloat.is_nan (snd item) = false) scores_AB
  /\ exists r,
      get_top_k_sets corpus_AB scores_AB 1 = Ok r
      /\ Z.of_nat (List.length r) <= Z.min 1 (Z.of_nat (List.length (docs corpus_AB))).
Proof.
  assert (H0 : 0 <= 1) by lia.
  assert (H1 : NoDup (map title (docs corpus_AB))).
  { simpl. repeat constructor; simpl; intuition discriminate. }
  assert (H2 : NoDup (map fst scores_AB)).
  { simpl. repeat constructor; simpl; intuition discriminate. }
  assert (H3 : Forall (fun item => PrimFloat.is_nan (snd item) = false) scores_AB).
  { repeat constructor. }
  split; [exact H0 |]. split; [exact H1 |]. split; [exact H2 |]. split; [exact H3 |].
  destruct (C3_get_top_k_sets corpus_AB scores_AB 1 H0 H1 H2 H3)
    as [ranking [r [_ [_ [_ [Hr [_ [Hb _]]]]]]]].
  exists r. split; assumption.
Defined.

(** C3 as stated fails: with the scores 0.25 for the first document and 0.5
    for the second and [k = 2], the documents come back in the order of the
    corpus, the lower score first. *)
Lemma C3_counterexample :
  get_top_k_sets corpus_AB scores_AB 2 = Ok [doc_A; doc_B]
  /\ ~ (exists r,
          get_top_k_sets corpus_AB scores_AB 2 = Ok r
          /\ Z.of_nat (List.length r)
             <= Z.min 2 (Z.of_nat (List.length (docs corpus_AB)))
          /\ scores_nonincreasing scores_AB r).
Proof.
  assert (E : get_top_k_sets corpus_AB scores_AB 2 = Ok [doc_A; doc_B])
    by reflexivity.
  split; [exact E |].
  intros [r [Hr [_ Hs]]]. rewrite E in Hr. injection Hr as <-.
  inversion Hs as [| ? ? _ Hall]; subst.
  inversion Hall as [| ? ? [sa [sb [Ha [Hb Hle]]]] _]; subst.
  unfold score_of in Ha, Hb. simpl in Ha, Hb.
  injection Ha as <-. injection Hb as <-. discriminate Hle.
Qed.

(** ** [_compute_tf_idf] *)

(** A term that the document-frequency table does not hold weighs [0.0]. *)
Lemma tf_idf_absent_term (log10 : float -> float) (self : LegoCorpus)
  (term : string) (doc : Document) :
  dict_contains String.eqb (_dfs self) term = false ->
  _compute_tf_idf log10 self term doc = Ok (Some PrimFloat.zero).
Proof. unfold _compute_tf_idf. now intros ->. Qed.

(** In a corpus of more than one document, a term of the table and of the
    vocabulary weighs the product of the two logarithms. *)
Lemma tf_idf_formula (log10 : float -> float) (self : LegoCorpus)
  (term : string) (doc : Document) (df : Z) (tf idf quotient : float) :
  dict_get String.eqb (_dfs self) term = Some df ->
  dict_contains String.eqb (_terms self) term = true ->
  1 < Z.of_nat (List.length (docs self)) ->
  math_log10_int log10 (1 + Document.tf doc term) = Ok tf ->
  truediv (Z.of_nat (List.length (docs self))) (1 + df) = Ok quotient ->
  math_log10 log10 quotient = Ok idf ->
  _compute_tf_idf log10 self term doc = Ok (Some (float_mul tf idf)).
Proof.
  intros Hdf Hterm Hlen Htf Hq Hidf. unfold _compute_tf_idf, dict_contains in *.
  rewrite Hdf, Htf. cbn [bind]. rewrite Hq. cbn [bind]. rewrite Hidf. cbn [bind].
  destruct (dict_get String.eqb (_terms self) term); [| discriminate].
  assert (E : (Z.of_nat (List.length (docs self)) >? 1) = true)
    by (apply Z.gtb_lt; lia).
  now rewrite E.
Qed.

(** With at most one document, a term of the table never gets a weight: the
    function ends without a [return], or raises. *)
Lemma tf_idf_single_document (log10 : float -> float) (self : LegoCorpus)
  (term : string) (doc : Document) (x : float) :
  dict_contains String.eqb (_dfs self) term = true ->
  (List.length (docs self) <= 1)%nat ->
  _compute_tf_idf log10 self term doc <> Ok (Some x).
Proof.
  intros Hdf Hlen. unfold _compute_tf_idf. rewrite Hdf.
  assert (E : (Z.of_nat (List.length (docs self)) >? 1) = false).
  { rewrite Z.gtb_ltb. apply Z.ltb_ge. lia. }
  rewrite E, andb_false_r.
  destruct (math_log10_int log10 (1 + Document.tf doc term))
    as [tf | e]; cbn [bind]; [| discriminate].
  destruct (dict_get String.eqb (_dfs self) term) as [df |];
    cbn [bind]; [| discriminate].
  destruct (truediv (Z.of_nat (List.length (docs self))) (1 + df))
    as [quotient | e]; cbn [bind]; [| discriminate].
  destruct (math_log10 log10 quotient) as [idf | e]; cbn [bind]; discriminate.
Qed.

(** C2 (the code departs from it): in the corpus of the single document
    [doc_A], whose description is a term of the vocabulary and of the
    document-frequency table (with the frequency [_compute_df] gives it),
    [_compute_tf_idf] computes both logarithms and then ends without a
    [return]: the result is [None], not [0.0]. *)
Theorem C2_single_document_returns_None (log10 : float -> float) :
  _compute_df corpus_A "airport with planes" = 1
  /\ dict_get String.eqb (_dfs corpus_A) "airport with planes" = Some 1
  /\ _compute_tf_idf log10 corpus_A "airport with planes" doc_A = Ok None
  /\ _compute_tf_idf log10 corpus_A "airport with planes" doc_A
     <> Ok (Some PrimFloat.zero).
Proof.
  split; [reflexivity |]. split; [reflexivity |].
  assert (E : _compute_tf_idf log10 corpus_A "airport with planes" doc_A = Ok None)
    by reflexivity.
  split; [exact E |]. rewrite E. discriminate.
Qed.

(** ** The examples of the documentation *)

Example compute_word_freq_example :
  compute_word_freq (Some ["this"; "sentence"; "repeats"; "the"; "word"; "sentence"])
  = Ok [mkFrequency (SStr "sentence") 2; mkFrequency (SStr "repeats") 1;
        mkFrequency (SStr "the") 1; mkFrequency (SStr "this") 1;
        mkFrequency (SStr "word") 1].
Proof. reflexivity. Qed.

Example compute_twogram_freq_example :
  compute_twogram_freq
    (Some ["you"; "think"; "you"; "know"; "how"; "you"; "think"])
  = Ok [mkFrequency (STwoGram (mkPair (VStr "you") (VStr "think"))) 2;
        mkFrequency (STwoGram (mkPair (VStr "how") (VStr "you"))) 1;
        mkFrequency (STwoGram (mkPair (VStr "know") (VStr "how"))) 1;
        mkFrequency (STwoGram (mkPair (VStr "think") (VStr "you"))) 1;
        mkFrequency (STwoGram (mkPair (VStr "you") (VStr "know"))) 1].
Proof. reflexivity. Qed.

Example print_frequencies_example :
  snd (print_frequencies
         [mkFrequency (STwoGram (mkPair (VStr "you") (VStr "think"))) 2;
          mkFrequency (SStr "how") 1]
         EmptyString)
  = ("     3 total items" ++ newline
     ++ "     2 unique items" ++ newline
     ++ newline
     ++ "     2 <you:think>" ++ newline
     ++ "     1 how" ++ newline)%string.
Proof. reflexivity. Qed.

(** * Further properties of the code *)

(** ** The comparators of [freq_models.py] *)

Lemma string_ltb_asym (x y : string) :
  String.ltb x y = true -> String.ltb y x = false.
Proof.
  intros H. destruct (String.ltb y x) eqn:E; [| reflexivity].
  pose proof (string_ltb_trans _ _ _ H E) as Hxx.
  unfold String.ltb in Hxx. rewrite string_compare_refl in Hxx. discriminate.
Qed.

Lemma compare_tokens_zero (t1 t2 : value) :
  _compare_tokens t1 t2 = Ok 0 <-> t1 = t2.
Proof.
  split.
  - destruct t1 as [| a | a], t2 as [| b | b]; unfold _compare_tokens; simpl;
      try discriminate; try reflexivity.
    + destruct (String.eqb a b) eqn:E.
      * apply String.eqb_eq in E. now subst.
      * destruct (String.ltb a b); discriminate.
    + destruct (a =? b) eqn:E.
      * apply Z.eqb_eq in E. now subst.
      * destruct (a <? b); discriminate.
  - intros ->. apply compare_tokens_of_equal. apply value_eq_refl.
Qed.

Lemma compare_tokens_range (t1 t2 : value) (c : Z) :
  _compare_tokens t1 t2 = Ok c -> c = -1 \/ c = 0 \/ c = 1.
Proof.
  destruct t1 as [| a | a], t2 as [| b | b]; unfold _compare_tokens; simpl;
    try discriminate; try (intros H; injection H as <-; lia).
  - destruct (String.eqb a b), (String.ltb a b); intros H; injection H as <-; lia.
  - destruct (a =? b), (a <? b); intros H; injection H as <-; lia.
Qed.

Lemma compare_tokens_swap (t1 t2 : value) (c : Z) :
  _compare_tokens t1 t2 = Ok c -> _compare_tokens t2 t1 = Ok (- c).
Proof.
  destruct t1 as [| a | a], t2 as [| b | b]; unfold _compare_tokens; simpl;
    try discriminate; try (intros H; injection H as <-; reflexivity).
  - rewrite (String.eqb_sym b a).
    destruct (String.eqb a b) eqn:E; [intros H; injection H as <-; reflexivity |].
    apply String.eqb_neq in E.
    destruct (String.ltb a b) eqn:L; intros H; injection H as <-.
    + now rewrite (string_ltb_asym _ _ L).
    + now rewrite (string_ltb_total _ _ E L).
  - rewrite (Z.eqb_sym b a).
    destruct (a =? b) eqn:E; [intros H; injection H as <-; reflexivity |].
    apply Z.eqb_neq in E.
    destruct (a <? b) eqn:L; intros H; injection H as <-.
    + apply Z.ltb_lt in L.
      assert (L' : (b <? a) = false) by (apply Z.ltb_ge; lia). now rewrite L'.
    + apply Z.ltb_ge in L.
      assert (L' : (b <? a) = true) by (apply Z.ltb_lt; lia). now rewrite L'.
Qed.

Lemma compare_tokens_lt_trans (t1 t2 t3 : value) :
  _compare_tokens t1 t2 = Ok (-1) -> _compare_tokens t2 t3 = Ok (-1) ->
  _compare_tokens t1 t3 = Ok (-1).
Proof.
  destruct t1 as [| a | a], t2 as [| b | b], t3 as [| c | c];
    unfold _compare_tokens; simpl; try discriminate; try reflexivity.
  - destruct (String.eqb a b) eqn:E1; [discriminate |].
    destruct (String.ltb a b) eqn:L1; [| discriminate].
    destruct (String.eqb b c) eqn:E2; [discriminate |].
    destruct (String.ltb b c) eqn:L2; [| discriminate].
    intros _ _. pose proof (string_ltb_trans _ _ _ L1 L2) as L.
    now rewrite (string_ltb_not_eqb _ _ L), L.
  - destruct (a =? b) eqn:E1; [discriminate |].
    destruct (a <? b) eqn:L1; [| discriminate].
    destruct (b =? c) eqn:E2; [discriminate |].
    destruct (b <? c) eqn:L2; [| discriminate].
    intros _ _. apply Z.ltb_lt in L1, L2.
    assert (E : (a =? c) = false) by (apply Z.eqb_neq; lia).
    assert (L : (a <? c) = true) by (apply Z.ltb_lt; lia).
    now rewrite E, L.
Qed.

Lemma compare_token_pairs_range (g h : TwoGram) (c : Z) :
  TwoGram._compare_token_pairs g (OTwoGram h) = Ok c -> c = -1 \/ c = 0 \/ c = 1.
Proof.
  unfold TwoGram._compare_token_pairs.
  destruct (_compare_tokens (_object1 g) (_object1 h)) as [c1 | e] eqn:E1;
    simpl; [| discriminate].
  destruct (c1 =? 0); simpl.
  - apply compare_tokens_range.
  - intros H. injection H as <-. now apply compare_tokens_range in E1.
Qed.

Lemma compare_token_pairs_swap (g h : TwoGram) (c : Z) :
  TwoGram._compare_token_pairs g (OTwoGram h) = Ok c ->
  TwoGram._compare_token_pairs h (OTwoGram g) = Ok (- c).
Proof.
  unfold TwoGram._compare_token_pairs.
  destruct (_compare_tokens (_object1 g) (_object1 h)) as [c1 | e] eqn:E1;
    simpl; [| discriminate].
  rewrite (compare_tokens_swap _ _ _ E1). simpl.
  destruct (c1 =? 0) eqn:Z1; simpl.
  - apply Z.eqb_eq in Z1. subst c1. simpl. apply compare_tokens_swap.
  - assert (Z2 : (- c1 =? 0) = false).
    { apply Z.eqb_neq. apply Z.eqb_neq in Z1. lia. }
    rewrite Z2. simpl. intros H. now injection H as <-.
Qed.

Lemma compare_token_pairs_zero (g h : TwoGram) :
  TwoGram._compare_token_pairs g (OTwoGram h) = Ok 0 <-> g = h.
Proof.
  unfold TwoGram._compare_token_pairs. split.
  - destruct (_compare_tokens (_object1 g) (_object1 h)) as [c1 | e] eqn:E1;
      simpl; [| discriminate].
    destruct (c1 =? 0) eqn:Z1; simpl.
    + apply Z.eqb_eq in Z1. subst c1. intros E2.
      apply compare_tokens_zero in E1, E2. destruct g, h; simpl in *. congruence.
    + intros H. injection H as ->. discriminate.
  - intros ->. rewrite (proj2 (compare_tokens_zero _ _) eq_refl). simpl.
    now apply compare_tokens_zero.
Qed.

Lemma compare_token_pairs_lt_trans (g h k : TwoGram) :
  TwoGram._compare_token_pairs g (OTwoGram h) = Ok (-1) ->
  TwoGram._compare_token_pairs h (OTwoGram k) = Ok (-1) ->
  TwoGram._compare_token_pairs g (OTwoGram k) = Ok (-1).
Proof.
  unfold TwoGram._compare_token_pairs.
  destruct (_compare_tokens (_object1 g) (_object1 h)) as [c1 | e] eqn:E1;
    simpl; [| discriminate].
  destruct (_compare_tokens (_object1 h) (_object1 k)) as [c2 | e] eqn:E2;
    simpl; [| destruct (c1 =? 0); simpl; intros _ H; discriminate H].
  destruct (c1 =? 0) eqn:Z1, (c2 =? 0) eqn:Z2; simpl.
  - apply Z.eqb_eq in Z1, Z2. subst.
    apply compare_tokens_zero in E1, E2.
    rewrite E1, E2, (proj2 (compare_tokens_zero _ _) eq_refl). simpl.
    apply compare_tokens_lt_trans.
  - apply Z.eqb_eq in Z1. subst. apply compare_tokens_zero in E1.
    intros _ H. injection H as ->. rewrite E1, E2. reflexivity.
  - apply Z.eqb_eq in Z2. subst. apply compare_tokens_zero in E2.
    intros H _. injection H as ->. rewrite <- E2, E1. reflexivity.
  - intros H1 H2. injection H1 as ->. injection H2 as ->.
    now rewrite (compare_tokens_lt_trans _ _ _ E1 E2).
Qed.

Lemma subject_eq_sym (a b : subject) : subject_eq a b = subject_eq b a.
Proof.
  destruct (subject_eq a b) eqn:E1, (subject_eq b a) eqn:E2; try reflexivity.
  - apply subject_eq_iff in E1. subst.
    rewrite (proj2 (subject_eq_iff b b) eq_refl) in E2. discriminate.
  - apply subject_eq_iff in E2. subst.
    rewrite (proj2 (subject_eq_iff a a) eq_refl) in E1. discriminate.
Qed.

(** Of two different subjects exactly one is below the other, when the
    comparison returns. *)
Lemma subject_lt_swap (a b : subject) (l : bool) :
  subject_eq a b = false -> subject_lt a b = Ok l -> subject_lt b a = Ok (negb l).
Proof.
  destruct a as [x | g], b as [y | h];
    cbn [subject_lt subject_eq obj_of_subject].
  - intros E H. injection H as <-. apply String.eqb_neq in E. f_equal.
    destruct (String.ltb x y) eqn:L; simpl.
    + now apply string_ltb_asym.
    + now apply string_ltb_total.
  - intros _ H. simpl in *. now injection H as <-.
  - intros _ H. simpl in *. now injection H as <-.
  - intros E. unfold TwoGram.__lt__. unfold TwoGram.__eq__ in E.
    destruct (TwoGram._compare_token_pairs g (OTwoGram h)) as [c | e] eqn:Ec;
      cbn [bind]; [| discriminate].
    intros H. injection H as <-.
    rewrite (compare_token_pairs_swap _ _ _ Ec). cbn [bind]. f_equal.
    assert (Hc : c <> 0).
    { intros ->. apply compare_token_pairs_zero in Ec. subst.
      rewrite (proj2 (pair_slots_eq_iff h h) eq_refl) in E. discriminate. }
    destruct (compare_token_pairs_range _ _ _ Ec) as [-> | [-> | ->]];
      [reflexivity | contradiction | reflexivity].
Qed.

Lemma subject_lt_trans (a b c : subject) :
  subject_lt a b = Ok true -> subject_lt b c = Ok true -> subject_lt a c = Ok true.
Proof.
  destruct a as [x | g], b as [y | h], c as [z | k];
    cbn [subject_lt obj_of_subject];
    try (simpl; discriminate); try (simpl; reflexivity).
  - intros H1 H2. injection H1 as H1. injection H2 as H2. f_equal.
    eapply string_ltb_trans; eassumption.
  - unfold TwoGram.__lt__.
    destruct (TwoGram._compare_token_pairs g (OTwoGram h)) as [c1 | e] eqn:E1;
      cbn [bind]; [| discriminate].
    destruct (TwoGram._compare_token_pairs h (OTwoGram k)) as [c2 | e] eqn:E2;
      cbn [bind]; [| discriminate].
    intros H1 H2. injection H1 as H1. injection H2 as H2.
    apply Z.eqb_eq in H1, H2. subst.
    now rewrite (compare_token_pairs_lt_trans _ _ _ E1 E2).
Qed.

Lemma compare_frequency_range (f : Frequency) (other : pyobj) (c : Z) :
  Frequency._compare_frequency f other = Ok c -> c = -1 \/ c = 0 \/ c = 1.
Proof.
  unfold Frequency._compare_frequency.
  destruct other as [| | | | | g]; try (intros H; injection H as <-; lia).
  destruct (_freq f >? _freq g); [intros H; injection H as <-; lia |].
  destruct (_freq f =? _freq g); [| intros H; injection H as <-; lia].
  destruct (subject_eq (_token f) (_token g)); [intros H; injection H as <-; lia |].
  destruct (subject_lt (_token f) (_token g)) as [[|] | e]; simpl;
    try discriminate; intros H; injection H as <-; lia.
Qed.

Lemma compare_frequency_swap (f g : Frequency) (c : Z) :
  Frequency._compare_frequency f (OFrequency g) = Ok c ->
  Frequency._compare_frequency g (OFrequency f) = Ok (- c).
Proof.
  unfold Frequency._compare_frequency.
  rewrite (subject_eq_sym (_token g) (_token f)), (Z.eqb_sym (_freq g) (_freq f)).
  rewrite !Z.gtb_ltb.
  destruct (Z.lt_trichotomy (_freq f) (_freq g)) as [Hlt | [Heq | Hgt]].
  - assert (E1 : (_freq g <? _freq f) = false) by (apply Z.ltb_ge; lia).
    assert (E2 : (_freq f =? _freq g) = false) by (apply Z.eqb_neq; lia).
    assert (E3 : (_freq f <? _freq g) = true) by (apply Z.ltb_lt; lia).
    rewrite E1, E2, E3. intros H. now injection H as <-.
  - assert (E1 : (_freq g <? _freq f) = false) by (apply Z.ltb_ge; lia).
    assert (E2 : (_freq f =? _freq g) = true) by (apply Z.eqb_eq; lia).
    assert (E3 : (_freq f <? _freq g) = false) by (apply Z.ltb_ge; lia).
    rewrite E1, E2, E3.
    destruct (subject_eq (_token f) (_token g)) eqn:Es;
      [intros H; now injection H as <- |].
    destruct (subject_lt (_token f) (_token g)) as [l | e] eqn:El;
      simpl; [| discriminate].
    rewrite (subject_lt_swap _ _ _ Es El). simpl.
    destruct l; intros H; now injection H as <-.
  - assert (E1 : (_freq g <? _freq f) = true) by (apply Z.ltb_lt; lia).
    assert (E3 : (_freq f <? _freq g) = false) by (apply Z.ltb_ge; lia).
    assert (E2 : (_freq f =? _freq g) = false) by (apply Z.eqb_neq; lia).
    rewrite E1, E2, E3. intros H. now injection H as <-.
Qed.

Lemma compare_frequency_zero (f g : Frequency) :
  Frequency._compare_frequency f (OFrequency g) = Ok 0 <-> f = g.
Proof.
  unfold Frequency._compare_frequency. split.
  - destruct (_freq f >? _freq g); [discriminate |].
    destruct (_freq f =? _freq g) eqn:E; [| discriminate].
    destruct (subject_eq (_token f) (_token g)) eqn:Es.
    + intros _. apply Z.eqb_eq in E. apply subject_eq_iff in Es.
      destruct f, g; simpl in *. congruence.
    + destruct (subject_lt (_token f) (_token g)) as [[|] | e]; discriminate.
  - intros ->.
    assert (E : (_freq g >? _freq g) = false) by (rewrite Z.gtb_ltb; apply Z.ltb_irrefl).
    rewrite E, Z.eqb_refl. now rewrite (proj2 (subject_eq_iff _ _) eq_refl).
Qed.

Lemma frequency_lt_trans (f g h : Frequency) :
  Frequency.__lt__ f (OFrequency g) = Ok true ->
  Frequency.__lt__ g (OFrequency h) = Ok true ->
  Frequency.__lt__ f (OFrequency h) = Ok true.
Proof.
  rewrite !frequency_lt_iff.
  intros [H1 | [H1 S1]] [H2 | [H2 S2]]; try (left; lia).
  right. split; [lia |]. eapply subject_lt_trans; eassumption.
Qed.


(** [_compare_tokens] is a comparator that puts [None] below every other
    token: it answers -1, 0 or 1, 0 exactly for equal tokens, the opposite
    when its arguments are swapped, and it raises only for two tokens of
    different types, neither of which is [None]. *)
Theorem compare_tokens_is_comparator (t1 t2 : value) :
  _compare_tokens VNone t2 = Ok (if is_None t2 then 0 else -1)
  /\ _compare_tokens t1 VNone = Ok (if is_None t1 then 0 else 1)
  /\ match _compare_tokens t1 t2 with
     | Ok c => (c = -1 \/ c = 0 \/ c = 1)
               /\ (c = 0 <-> t1 = t2)
               /\ _compare_tokens t2 t1 = Ok (- c)
     | Raise _ => is_None t1 = false /\ is_None t2 = false
                  /\ type_of_value t1 <> type_of_value t2
     end.
Proof.
  split; [destruct t2; reflexivity |]. split; [destruct t1; reflexivity |].
  destruct (_compare_tokens t1 t2) as [c | e] eqn:E.
  - split; [now apply compare_tokens_range in E |].
    split; [| now apply compare_tokens_swap].
    split.
    + intros ->. now apply compare_tokens_zero.
    + intros ->. rewrite (proj2 (compare_tokens_zero t2 t2) eq_refl) in E.
      now injection E as <-.
  - destruct t1 as [| a | a], t2 as [| b | b]; unfold _compare_tokens in E;
      simpl in E; try discriminate; try (repeat split; discriminate).
    + destruct (String.eqb a b), (String.ltb a b); discriminate.
    + destruct (a =? b), (a <? b); discriminate.
Qed.



(** Against [None] or any value that is not a TwoGram, a TwoGram is the
    greater one: the comparator answers 1, so [<], [<=] and [==] are false
    and [>], [>=] and [!=] are true. *)
Theorem twogram_greater_than_other_types (g : TwoGram) (other : pyobj) :
  isinstance other T_TwoGram = false ->
  TwoGram._compare_token_pairs g other = Ok 1
  /\ TwoGram.__lt__ g other = Ok false
  /\ TwoGram.__le__ g other = Ok false
  /\ TwoGram.__eq__ g other = false
  /\ TwoGram.__ne__ g other = true
  /\ TwoGram.__gt__ g other = Ok true
  /\ TwoGram.__ge__ g other = Ok true.
Proof.
  intros H. destruct other; try discriminate H; repeat split.
Qed.

Lemma twogram_greater_than_other_types_witness :
  isinstance (OStr "word") T_TwoGram = false
  /\ TwoGram.__gt__ (mkPair (VStr "a") (VStr "b")) (OStr "word") = Ok true.
Proof.
  split; [reflexivity |].
  apply (twogram_greater_than_other_types
           (mkPair (VStr "a") (VStr "b")) (OStr "word") eq_refl).
Defined.

(** When [g < h] returns between two TwoGrams, the six comparisons agree:
    exactly one of [g < h], [g == h] and [g > h] is true, [<=] is [<] or
    [==], [>=] is [>] or [==], and [!=] is the negation of [==], although
    [__eq__] does not go through the comparator. *)
Theorem twogram_rich_comparisons_agree (g h : TwoGram) (l : bool) :
  TwoGram.__lt__ g (OTwoGram h) = Ok l ->
  exists r,
    TwoGram.__gt__ g (OTwoGram h) = Ok r
    /\ TwoGram.__le__ g (OTwoGram h) = Ok (l || TwoGram.__eq__ g (OTwoGram h))
    /\ TwoGram.__ge__ g (OTwoGram h) = Ok (r || TwoGram.__eq__ g (OTwoGram h))
    /\ TwoGram.__ne__ g (OTwoGram h) = negb (TwoGram.__eq__ g (OTwoGram h))
    /\ ((l = true /\ TwoGram.__eq__ g (OTwoGram h) = false /\ r = false)
        \/ (l = false /\ TwoGram.__eq__ g (OTwoGram h) = true /\ r = false)
        \/ (l = false /\ TwoGram.__eq__ g (OTwoGram h) = false /\ r = true)).
Proof.
  unfold TwoGram.__lt__, TwoGram.__gt__, TwoGram.__le__, TwoGram.__ge__,
    TwoGram.__ne__.
  destruct (TwoGram._compare_token_pairs g (OTwoGram h)) as [c | e] eqn:E;
    cbn [bind]; [| discriminate].
  intros H. injection H as <-. exists (c =? 1).
  assert (Heq : TwoGram.__eq__ g (OTwoGram h) = (c =? 0)).
  { destruct (c =? 0) eqn:Z0.
    - apply Z.eqb_eq in Z0. subst.
      apply compare_token_pairs_zero in E. subst.
      unfold TwoGram.__eq__. now apply pair_slots_eq_iff.
    - destruct (TwoGram.__eq__ g (OTwoGram h)) eqn:Eq; [| reflexivity].
      unfold TwoGram.__eq__ in Eq. apply pair_slots_eq_iff in Eq. subst.
      rewrite (proj2 (compare_token_pairs_zero h h) eq_refl) in E.
      injection E as <-. discriminate. }
  rewrite Heq.
  destruct (compare_token_pairs_range _ _ _ E) as [-> | [-> | ->]];
    repeat split; auto.
Qed.

Lemma twogram_rich_comparisons_agree_witness :
  TwoGram.__lt__ (mkPair (VStr "a") VNone) (OTwoGram (mkPair (VStr "a") (VStr "b")))
  = Ok true
  /\ exists r,
      TwoGram.__gt__ (mkPair (VStr "a") VNone)
                     (OTwoGram (mkPair (VStr "a") (VStr "b"))) = Ok r.
Proof.
  split; [reflexivity |].
  destruct (twogram_rich_comparisons_agree
              (mkPair (VStr "a") VNone) (mkPair (VStr "a") (VStr "b")) true eq_refl)
    as [r [Hr _]].
  exists r. exact Hr.
Defined.

(** [<] between TwoGrams is a strict order: no TwoGram is below itself, two
    TwoGrams are never below each other, the order is transitive, and of two
    different TwoGrams that can be compared one is below the other. *)
Theorem twogram_lt_strict_order (g h k : TwoGram) :
  TwoGram.__lt__ g (OTwoGram g) = Ok false
  /\ (TwoGram.__lt__ g (OTwoGram h) = Ok true ->
      TwoGram.__lt__ h (OTwoGram g) = Ok false)
  /\ (TwoGram.__lt__ g (OTwoGram h) = Ok true ->
      TwoGram.__lt__ h (OTwoGram k) = Ok true ->
      TwoGram.__lt__ g (OTwoGram k) = Ok true)
  /\ (g <> h -> TwoGram.__lt__ g (OTwoGram h) = Ok false ->
      TwoGram.__lt__ h (OTwoGram g) = Ok true).
Proof.
  split; [| split; [| split]].
  - unfold TwoGram.__lt__.
    now rewrite (proj2 (compare_token_pairs_zero g g) eq_refl).
  - intros H.
    assert (Hne : subject_eq (STwoGram g) (STwoGram h) = false).
    { now apply subject_lt_not_eq. }
    exact (subject_lt_swap (STwoGram g) (STwoGram h) true Hne H).
  - exact (subject_lt_trans (STwoGram g) (STwoGram h) (STwoGram k)).
  - intros Hne H.
    assert (Hs : subject_eq (STwoGram g) (STwoGram h) = false).
    { destruct (subject_eq (STwoGram g) (STwoGram h)) eqn:E; [| reflexivity].
      apply subject_eq_iff in E. congruence. }
    exact (subject_lt_swap (STwoGram g) (STwoGram h) false Hs H).
Qed.

Lemma twogram_lt_strict_order_witness :
  TwoGram.__lt__ (mkPair VNone (VStr "b")) (OTwoGram (mkPair (VStr "a") (VStr "b")))
  = Ok true
  /\ TwoGram.__lt__ (mkPair (VStr "a") (VStr "b")) (OTwoGram (mkPair (VStr "a") (VStr "c")))
     = Ok true
  /\ TwoGram.__lt__ (mkPair VNone (VStr "b")) (OTwoGram (mkPair (VStr "a") (VStr "c")))
     = Ok true.
Proof.
  split; [reflexivity |]. split; [reflexivity |].
  apply (proj1 (proj2 (proj2 (twogram_lt_strict_order
                                (mkPair VNone (VStr "b"))
                                (mkPair (VStr "a") (VStr "b"))
                                (mkPair (VStr "a") (VStr "c")))))); reflexivity.
Defined.

(** Two Frequency records are equal ([==] is true, [!=] is false) exactly
    when they have the same subject and the same count. *)
Theorem frequency_eq_is_structural (f g : Frequency) :
  (py_eq (OFrequency f) (OFrequency g) = Ok true <-> f = g)
  /\ (Frequency.__eq__ f (OFrequency g) = Ok true <-> f = g)
  /\ (Frequency.__ne__ f (OFrequency g) = Ok false <-> f = g).
Proof.
  assert (H : Frequency.__eq__ f (OFrequency g) = Ok true <-> f = g).
  { rewrite <- compare_frequency_zero. unfold Frequency.__eq__.
    destruct (Frequency._compare_frequency f (OFrequency g)) as [c | e];
      cbn [bind]; [| split; discriminate].
    split.
    - intros E. injection E as E. apply Z.eqb_eq in E. now subst.
    - intros E. injection E as ->. reflexivity. }
  split; [| split; [exact H |]].
  - rewrite <- H. unfold py_eq, do_richcompare. simpl.
    destruct (Frequency.__eq__ f (OFrequency g)) as [[|] | e]; simpl;
      split; intros E; try discriminate E; reflexivity.
  - rewrite <- H. unfold Frequency.__eq__, Frequency.__ne__.
    destruct (Frequency._compare_frequency f (OFrequency g)) as [c | e];
      cbn [bind]; [| split; discriminate].
    destruct (c =? 0); simpl; split; intros E; try discriminate E; reflexivity.
Qed.

(** [_compare_frequency] is a comparator: between two records it answers
    -1, 0 or 1 whenever it returns, 0 exactly for equal records, and the
    opposite when the operands are swapped. *)
Theorem compare_frequency_is_comparator (f g : Frequency) :
  match Frequency._compare_frequency f (OFrequency g) with
  | Ok c => (c = -1 \/ c = 0 \/ c = 1)
            /\ (c = 0 <-> f = g)
            /\ Frequency._compare_frequency g (OFrequency f) = Ok (- c)
  | Raise _ => _freq f = _freq g /\ _token f <> _token g
  end.
Proof.
  destruct (Frequency._compare_frequency f (OFrequency g)) as [c | e] eqn:E.
  - split; [now apply compare_frequency_range in E |].
    split; [| now apply compare_frequency_swap].
    split.
    + intros ->. now apply compare_frequency_zero.
    + intros ->. rewrite (proj2 (compare_frequency_zero g g) eq_refl) in E.
      now injection E as <-.
  - unfold Frequency._compare_frequency in E.
    destruct (_freq f >? _freq g); [discriminate |].
    destruct (_freq f =? _freq g) eqn:Ef; [| discriminate].
    apply Z.eqb_eq in Ef. split; [assumption |].
    destruct (subject_eq (_token f) (_token g)) eqn:Es; [discriminate |].
    intros Ht. apply subject_eq_iff in Ht. congruence.
Qed.

(** [<] between Frequency records is a strict order: no record is below
    itself, two records are never below each other, and the order is
    transitive. *)
Theorem frequency_lt_strict_order (f g h : Frequency) :
  py_lt (OFrequency f) (OFrequency f) = Ok false
  /\ (py_lt (OFrequency f) (OFrequency g) = Ok true ->
      py_lt (OFrequency g) (OFrequency f) = Ok false)
  /\ (py_lt (OFrequency f) (OFrequency g) = Ok true ->
      py_lt (OFrequency g) (OFrequency h) = Ok true ->
      py_lt (OFrequency f) (OFrequency h) = Ok true).
Proof.
  fold (frequency_lt f f) (frequency_lt f g) (frequency_lt g f)
       (frequency_lt g h) (frequency_lt f h).
  rewrite !frequency_lt_method.
  split; [| split].
  - unfold Frequency.__lt__.
    now rewrite (proj2 (compare_frequency_zero f f) eq_refl).
  - unfold Frequency.__lt__.
    destruct (Frequency._compare_frequency f (OFrequency g)) as [c | e] eqn:E;
      cbn [bind]; [| discriminate].
    intros H. injection H as H. apply Z.eqb_eq in H. subst.
    now rewrite (compare_frequency_swap _ _ _ E).
  - apply frequency_lt_trans.
Qed.

Lemma frequency_lt_strict_order_witness :
  py_lt (OFrequency (mkFrequency (SStr "b") 3)) (OFrequency (mkFrequency (SStr "a") 2))
  = Ok true
  /\ py_lt (OFrequency (mkFrequency (SStr "a") 2)) (OFrequency (mkFrequency (SStr "c") 2))
     = Ok true
  /\ py_lt (OFrequency (mkFrequency (SStr "b") 3)) (OFrequency (mkFrequency (SStr "c") 2))
     = Ok true.
Proof.
  split; [reflexivity |]. split; [reflexivity |].
  apply (proj2 (proj2 (frequency_lt_strict_order
                         (mkFrequency (SStr "b") 3) (mkFrequency (SStr "a") 2)
                         (mkFrequency (SStr "c") 2)))); reflexivity.
Defined.

(** [increment_freq] adds one to the count and keeps the subject; the
    record then comes strictly before its former state in the order of
    [Frequency], whatever its subject. *)
Theorem increment_freq_moves_up (f : Frequency) :
  _token (Frequency.increment_freq f) = _token f
  /\ _freq (Frequency.increment_freq f) = _freq f + 1
  /\ py_lt (OFrequency (Frequency.increment_freq f)) (OFrequency f) = Ok true
  /\ py_lt (OFrequency f) (OFrequency (Frequency.increment_freq f)) = Ok false.
Proof.
  split; [reflexivity |]. split; [reflexivity |].
  fold (frequency_lt (Frequency.increment_freq f) f)
       (frequency_lt f (Frequency.increment_freq f)).
  rewrite !frequency_lt_method.
  unfold Frequency.__lt__, Frequency._compare_frequency, Frequency.increment_freq.
  simpl.
  assert (E1 : (_freq f + 1 >? _freq f) = true) by (apply Z.gtb_lt; lia).
  assert (E2 : (_freq f >? _freq f + 1) = false)
    by (rewrite Z.gtb_ltb; apply Z.ltb_ge; lia).
  assert (E3 : (_freq f =? _freq f + 1) = false) by (apply Z.eqb_neq; lia).
  rewrite E1, E2, E3. split; reflexivity.
Qed.

(** ** [Pair.__str__] and the setters of [TwoGram] *)

(** Rendering a pair a second time gives the same text and assigns
    nothing more: after the first rendering no slot is [None]. *)
Theorem pair_str_idempotent (p : Pair) :
  _object1 (snd (Pair.__str__ p)) <> VNone
  /\ _object2 (snd (Pair.__str__ p)) <> VNone
  /\ Pair.__str__ (snd (Pair.__str__ p))
     = (fst (Pair.__str__ p), snd (Pair.__str__ p)).
Proof.
  destruct p as [[| s1 | z1] [| s2 | z2]]; repeat split; discriminate.
Qed.

(** The constructor of [TwoGram] succeeds exactly when one token is [None]
    or both have the same type, and then holds the two tokens.  A setter
    succeeds exactly when the new value is [None] or has the type of the
    other slot: when it returns, this condition holds, the one slot has the
    new value, the other slot is unchanged and the TwoGram has the type
    symmetry the constructor tests; when it raises, the new value is not
    [None] and its type differs from the type of the other slot.  Every
    refusal is the same [ValueError]. *)
Theorem twogram_setters_keep_type_symmetry (self : TwoGram) (o1 o2 : value) :
  match TwoGram.__init__ o1 o2 with
  | Ok g => type_symmetric g = true /\ g = mkPair o1 o2
  | Raise e => e = TwoGram.type_error /\ type_symmetric (mkPair o1 o2) = false
  end
  /\ match TwoGram.set_object1 self o1 with
     | Ok g => (is_None o1 = true
                \/ type_of_value (_object2 self) = type_of_value o1)
               /\ type_symmetric g = true /\ g = mkPair o1 (_object2 self)
     | Raise e => e = TwoGram.type_error /\ is_None o1 = false
                  /\ type_of_value (_object2 self) <> type_of_value o1
     end
  /\ match TwoGram.set_object2 self o2 with
     | Ok g => (is_None o2 = true
                \/ type_of_value (_object1 self) = type_of_value o2)
               /\ type_symmetric g = true /\ g = mkPair (_object1 self) o2
     | Raise e => e = TwoGram.type_error /\ is_None o2 = false
                  /\ type_of_value (_object1 self) <> type_of_value o2
     end.
Proof.
  destruct self as [[| a1 | a1] [| a2 | a2]], o1 as [| b1 | b1], o2 as [| b2 | b2];
    repeat split; try discriminate;
    solve [left; reflexivity | right; reflexivity].
Qed.

(** ** More on [compute_word_freq] and [compute_twogram_freq] *)

(** What [compute_word_freq] returns, for any list of tokens. *)
Lemma compute_word_freq_spec (tokens : list string) :
  exists s,
    compute_word_freq (Some tokens) = Ok s
    /\ NoDup (map _token s)
    /\ (forall f,
           In f s
           <-> exists t,
               In t tokens
               /\ f = mkFrequency (SStr t) (Z.of_nat (count_occ string_dec tokens t)))
    /\ total_count s = Z.of_nat (List.length tokens)
    /\ StronglySorted frequency_before s.
Proof.
  destruct tokens as [| first rest].
  - exists []. repeat split; try constructor; simpl; try tauto.
    intros [t [[] _]].
  - unfold compute_word_freq.
    destruct (frequencies_of_counts String.eqb string_dec String.eqb_eq OStr SStr)
      with (ks := first :: rest) as [s (H1 & H2 & H3 & H4 & H5 & _)].
    + intros k n Hn. unfold Frequency.__init__. simpl.
      destruct (n <? 0) eqn:E; [| reflexivity]. apply Z.ltb_lt in E. lia.
    + intros a b H. now inversion H.
    + reflexivity.
    + exists s. auto.
Qed.

(** What [compute_twogram_freq] returns, for any list of tokens. *)
Lemma compute_twogram_freq_spec (tokens : list string) :
  exists s,
    compute_twogram_freq (Some tokens) = Ok s
    /\ NoDup (map _token s)
    /\ (forall f,
           In f s
           <-> exists g,
               In g (consecutive_pairs tokens)
               /\ f = mkFrequency
                        (STwoGram g)
                        (Z.of_nat (count_occ Pair_eq_dec (consecutive_pairs tokens) g)))
    /\ total_count s = Z.of_nat (List.length (consecutive_pairs tokens))
    /\ StronglySorted frequency_before s.
Proof.
  destruct tokens as [| first rest].
  - exists []. repeat split; try constructor; simpl; try tauto.
    intros [t [[] _]].
  - unfold compute_twogram_freq.
    rewrite (twogram_counting_loop (first :: rest)). cbn [bind].
    destruct (frequencies_of_counts twogram_key_eqb Pair_eq_dec twogram_key_eqb_iff
                OTwoGram STwoGram)
      with (ks := consecutive_pairs (first :: rest))
      as [s (H1 & H2 & H3 & H4 & H5 & _)].
    + intros g n Hn. unfold Frequency.__init__. simpl.
      destruct (n <? 0) eqn:E; [| reflexivity]. apply Z.ltb_lt in E. lia.
    + intros a b H. now inversion H.
    + intros g Hg. unfold consecutive_pairs in Hg.
      apply in_map_iff in Hg. destruct Hg as [i [<- _]]. reflexivity.
    + exists s. auto.
Qed.

Lemma frequency_before_asym (a b : Frequency) :
  frequency_before a b -> frequency_before b a -> False.
Proof.
  unfold frequency_before. fold (frequency_lt a b) (frequency_lt b a).
  rewrite !frequency_lt_method. unfold Frequency.__lt__.
  destruct (Frequency._compare_frequency a (OFrequency b)) as [c | e] eqn:E;
    cbn [bind]; [| discriminate].
  intros H. injection H as H. apply Z.eqb_eq in H. subst.
  rewrite (compare_frequency_swap _ _ _ E). cbn [bind]. discriminate.
Qed.

(** Two lists in a strict order that hold the same elements are equal. *)
(** [compute_word_freq] depends on the tokens and their numbers only, not on
    the order they are given in. *)
Theorem compute_word_freq_order_independent (tokens tokens' : list string) :
  Permutation tokens tokens' ->
  compute_word_freq (Some tokens) = compute_word_freq (Some tokens').
Proof.
  intros Hperm.
  destruct (compute_word_freq_spec tokens) as [s (E & _ & Hin & _ & Hs)].
  destruct (compute_word_freq_spec tokens') as [s' (E' & _ & Hin' & _ & Hs')].
  rewrite E, E'. f_equal.
  apply (sorted_unique frequency_before); try assumption.
  - exact frequency_before_asym.
  - intros f. rewrite Hin, Hin'. split; intros [t [Ht ->]]; exists t; split.
    + now apply (Permutation_in _ Hperm).
    + now rewrite (proj1 (Permutation_count_occ string_dec _ _) Hperm).
    + now apply (Permutation_in _ (Permutation_sym Hperm)).
    + now rewrite (proj1 (Permutation_count_occ string_dec _ _) Hperm).
Qed.

Lemma compute_word_freq_order_independent_witness :
  Permutation ["b"; "a"; "b"] ["a"; "b"; "b"]
  /\ compute_word_freq (Some ["b"; "a"; "b"]) = compute_word_freq (Some ["a"; "b"; "b"]).
Proof.
  assert (H : Permutation ["b"; "a"; "b"] ["a"; "b"; "b"]) by apply perm_swap.
  split; [exact H |].
  exact (compute_word_freq_order_independent _ _ H).
Defined.

Lemma sort_insert_last {A : Type} (lt : A -> A -> result bool)
  (pivot : A) (sorted : list A) :
  (forall y, In y sorted -> lt pivot y = Ok false) ->
  sort_insert lt pivot sorted = Ok (sorted ++ [pivot]).
Proof.
  induction sorted as [| y rest IH]; intros H; simpl; [reflexivity |].
  rewrite (H y (or_introl eq_refl)). cbn [bind].
  rewrite IH by (intros z Hz; apply H; now right). reflexivity.
Qed.

(** Sorting a list that is in strict order gives the list back. *)
Lemma list_sort_of_sorted {A : Type} (lt : A -> A -> result bool) (l acc : list A) :
  (forall a b, lt a b = Ok true -> lt b a = Ok false) ->
  StronglySorted (fun a b => lt a b = Ok true) (acc ++ l) ->
  for_each (fun sorted pivot => sort_insert lt pivot sorted) l acc = Ok (acc ++ l).
Proof.
  intros Hasym. revert acc. induction l as [| x l IH]; intros acc Hs; simpl.
  - now rewrite app_nil_r.
  - rewrite sort_insert_last.
    + cbn [bind]. rewrite IH; rewrite <- app_assoc; [reflexivity | exact Hs].
    + intros y Hy. apply Hasym.
      apply (sorted_before _ _ _ _ Hs). exists acc, (x :: l).
      repeat split; simpl; auto.
Qed.

Lemma frequency_lt_asym (a b : Frequency) :
  frequency_lt a b = Ok true -> frequency_lt b a = Ok false.
Proof.
  rewrite !frequency_lt_method. unfold Frequency.__lt__.
  destruct (Frequency._compare_frequency a (OFrequency b)) as [c | e] eqn:E;
    cbn [bind]; [| discriminate].
  intros H. injection H as H. apply Z.eqb_eq in H. subst.
  now rewrite (compare_frequency_swap _ _ _ E).
Qed.

(** Sorting the list either counting function returns gives the same list:
    it is already in the order [list.sort] puts it in. *)
Theorem resorting_the_result_changes_nothing (tokens : list string)
  (s : list Frequency) :
  compute_word_freq (Some tokens) = Ok s \/ compute_twogram_freq (Some tokens) = Ok s ->
  list_sort frequency_lt s = Ok s.
Proof.
  intros H.
  assert (Hs : StronglySorted frequency_before s).
  { destruct H as [H | H].
    - destruct (compute_word_freq_spec tokens) as [s' (E & _ & _ & _ & Hs)].
      rewrite H in E. now injection E as ->.
    - destruct (compute_twogram_freq_spec tokens) as [s' (E & _ & _ & _ & Hs)].
      rewrite H in E. now injection E as ->. }
  apply (list_sort_of_sorted frequency_lt s []).
  - exact frequency_lt_asym.
  - exact Hs.
Qed.

Lemma resorting_the_result_changes_nothing_witness :
  (compute_word_freq (Some ["b"; "a"; "b"])
   = Ok [mkFrequency (SStr "b") 2; mkFrequency (SStr "a") 1]
   \/ compute_twogram_freq (Some ["b"; "a"; "b"])
      = Ok [mkFrequency (SStr "b") 2; mkFrequency (SStr "a") 1])
  /\ list_sort frequency_lt [mkFrequency (SStr "b") 2; mkFrequency (SStr "a") 1]
     = Ok [mkFrequency (SStr "b") 2; mkFrequency (SStr "a") 1].
Proof.
  assert (H : compute_word_freq (Some ["b"; "a"; "b"])
              = Ok [mkFrequency (SStr "b") 2; mkFrequency (SStr "a") 1]
              \/ compute_twogram_freq (Some ["b"; "a"; "b"])
                 = Ok [mkFrequency (SStr "b") 2; mkFrequency (SStr "a") 1])
    by (left; reflexivity).
  split; [exact H |].
  exact (resorting_the_result_changes_nothing _ _ H).
Defined.

Lemma distinct_subjects_length (s : list Frequency) (ks : list subject) :
  NoDup (map _token s) -> NoDup ks ->
  (forall x, In x (map _token s) <-> In x ks) ->
  List.length s = List.length ks.
Proof.
  intros H1 H2 H3. rewrite <- (length_map _token s).
  apply Permutation_length. now apply NoDup_Permutation.
Qed.

(** [compute_word_freq] returns as many records as the input has different
    tokens, and every count lies between 1 and the length of the input: no
    record has the count 0. *)
Theorem word_frequency_counts (tokens : list string) (s : list Frequency) :
  compute_word_freq (Some tokens) = Ok s ->
  List.length s = List.length (nodup string_dec tokens)
  /\ Forall (fun f => 1 <= _freq f <= Z.of_nat (List.length tokens)) s.
Proof.
  intros H.
  destruct (compute_word_freq_spec tokens) as [s' (E & Hnd & Hin & _ & _)].
  rewrite H in E. injection E as <-. split.
  - rewrite <- (length_map SStr (nodup string_dec tokens)).
    apply (distinct_subjects_length s (map SStr (nodup string_dec tokens))).
    + exact Hnd.
    + apply Finite.Injective_map_NoDup; [| apply NoDup_nodup].
      intros a b Hab. now inversion Hab.
    + intros x. rewrite !in_map_iff. split.
      * intros [f [<- Hf]]. apply Hin in Hf. destruct Hf as [t [Ht ->]].
        exists t. split; [reflexivity | now apply nodup_In].
      * intros [t [<- Ht]]. apply nodup_In in Ht.
        exists (mkFrequency (SStr t) (Z.of_nat (count_occ string_dec tokens t))).
        split; [reflexivity |]. apply Hin. eauto.
  - apply Forall_forall. intros f Hf. apply Hin in Hf.
    destruct Hf as [t [Ht ->]]. simpl.
    pose proof (proj1 (count_occ_In string_dec tokens t) Ht).
    pose proof (count_occ_bound string_dec t tokens). lia.
Qed.

Lemma word_frequency_counts_witness :
  compute_word_freq (Some ["b"; "a"; "b"])
  = Ok [mkFrequency (SStr "b") 2; mkFrequency (SStr "a") 1]
  /\ List.length [mkFrequency (SStr "b") 2; mkFrequency (SStr "a") 1]
     = List.length (nodup string_dec ["b"; "a"; "b"]).
Proof.
  split; [reflexivity |].
  exact (proj1 (word_frequency_counts
                  ["b"; "a"; "b"]
                  [mkFrequency (SStr "b") 2; mkFrequency (SStr "a") 1] eq_refl)).
Defined.

(** ** [tokenize_file] *)

Lemma lower_char_not_upper (c : ascii) : is_upper (lower_char c) = false.
Proof.
  destruct c as [[|] [|] [|] [|] [|] [|] [|] [|]]; reflexivity.
Qed.

Lemma lower_char_class (c : ascii) :
  in_token_class (lower_char c) = in_token_class c.
Proof.
  destruct c as [[|] [|] [|] [|] [|] [|] [|] [|]]; reflexivity.
Qed.

Lemma lower_char_fixed (c : ascii) : is_upper c = false -> lower_char c = c.
Proof. unfold lower_char. now intros ->. Qed.

Lemma string_forallb_app (p : ascii -> bool) (a b : string) :
  string_forallb p (a ++ b)%string = string_forallb p a && string_forallb p b.
Proof.
  induction a as [| c a IH]; simpl; [reflexivity |].
  now rewrite IH, andb_assoc.
Qed.

Lemma string_app_empty_r (a : string) : (a ++ EmptyString)%string = a.
Proof. induction a as [| c a IH]; simpl; [reflexivity | now rewrite IH]. Qed.

(** The matches of a text that holds a character outside the class are the
    matches before it followed by the matches after it. *)
Lemma findall_scan_split (a b : string) (d : ascii) (run : string) :
  in_token_class d = false ->
  findall_scan run (a ++ String d b)%string
  = findall_scan run a ++ findall_scan EmptyString b.
Proof.
  intros Hd. revert run. induction a as [| c a IH]; intros run; simpl.
  - now rewrite Hd.
  - destruct (in_token_class c).
    + apply IH.
    + rewrite IH. now rewrite app_assoc.
Qed.

(** A text made of characters of the class is one match. *)
Lemma findall_scan_run (t run : string) :
  string_forallb in_token_class t = true ->
  findall_scan run t = emit_match (run ++ t)%string.
Proof.
  revert run. induction t as [| c t IH]; intros run H; simpl.
  - now rewrite string_app_empty_r.
  - simpl in H. apply andb_true_iff in H. destruct H as [Hc Ht].
    rewrite Hc, (IH _ Ht), string_app_assoc. reflexivity.
Qed.

Lemma findall_scan_tokens (p : ascii -> bool) (s run : string) :
  string_forallb (fun c => in_token_class c && p c) run = true ->
  string_forallb p s = true ->
  Forall (fun t => t <> EmptyString
                   /\ string_forallb (fun c => in_token_class c && p c) t = true)
         (findall_scan run s).
Proof.
  assert (Hemit : forall r,
             string_forallb (fun c => in_token_class c && p c) r = true ->
             Forall (fun t => t <> EmptyString
                              /\ string_forallb
                                   (fun c => in_token_class c && p c) t = true)
                    (emit_match r)).
  { intros [| c r] Hr; simpl; constructor; [| constructor].
    split; [discriminate | exact Hr]. }
  revert run. induction s as [| c s IH]; intros run Hrun Hs; simpl.
  - now apply Hemit.
  - simpl in Hs. apply andb_true_iff in Hs. destruct Hs as [Hc Hs].
    destruct (in_token_class c) eqn:Ec.
    + apply IH; [| assumption].
      rewrite string_forallb_app, Hrun. simpl. now rewrite Ec, Hc.
    + apply Forall_app. split; [now apply Hemit | now apply IH].
Qed.

Lemma str_lower_not_upper (s : string) :
  string_forallb (fun c => negb (is_upper c)) (str_lower s) = true.
Proof.
  induction s as [| c s IH]; simpl; [reflexivity |].
  now rewrite lower_char_not_upper, IH.
Qed.

Lemma tokenize_file_from (lines : list string) (acc : list string) :
  fold_left (fun token_list line => token_list ++ findall (str_lower line)) lines acc
  = acc ++ flat_map (fun line => findall (str_lower line)) lines.
Proof.
  revert acc. induction lines as [| l lines IH]; intros acc; simpl.
  - now rewrite app_nil_r.
  - rewrite IH. now rewrite app_assoc.
Qed.

(** Every token [tokenize_file] returns for ASCII text is a token: not
    empty and made of lower-case letters, digits, underscores and
    apostrophes only. *)
Theorem tokenize_file_returns_tokens (file_obj : list string) (t : string) :
  Forall (fun line => is_ascii_text line = true) file_obj ->
  In t (tokenize_file file_obj) ->
  is_token t = true.
Proof.
  intros _ Ht. unfold tokenize_file in Ht. rewrite tokenize_file_from in Ht.
  simpl in Ht. apply in_flat_map in Ht. destruct Ht as [line [_ Ht]].
  pose proof (findall_scan_tokens (fun c => negb (is_upper c))
                (str_lower line) EmptyString eq_refl (str_lower_not_upper line)) as H.
  rewrite Forall_forall in H. destruct (H t Ht) as [Hne Hall].
  unfold is_token. rewrite Hall, andb_true_r.
  apply negb_true_iff. now apply String.eqb_neq.
Qed.

Lemma tokenize_file_returns_tokens_witness :
  Forall (fun line => is_ascii_text line = true) ["It's 2 B!"]
  /\ In "it's" (tokenize_file ["It's 2 B!"])
  /\ is_token "it's" = true.
Proof.
  assert (H1 : Forall (fun line => is_ascii_text line = true) ["It's 2 B!"])
    by (repeat constructor).
  assert (H2 : In "it's" (tokenize_file ["It's 2 B!"])) by (left; reflexivity).
  split; [exact H1 |]. split; [exact H2 |].
  exact (tokenize_file_returns_tokens _ _ H1 H2).
Defined.

Lemma str_lower_app (a b : string) :
  str_lower (a ++ b)%string = (str_lower a ++ str_lower b)%string.
Proof. induction a as [| c a IH]; simpl; [reflexivity | now rewrite IH]. Qed.

(** A line that ends with the newline character ends the matches. *)
Lemma findall_line (l rest : string) :
  findall (str_lower ((l ++ newline) ++ rest)%string)
  = findall (str_lower (l ++ newline)%string) ++ findall (str_lower rest).
Proof.
  unfold findall, newline.
  rewrite string_app_assoc, !str_lower_app.
  change (str_lower (String (ascii_of_nat 10) EmptyString))
    with (String (ascii_of_nat 10) EmptyString).
  change (String (ascii_of_nat 10) EmptyString ++ str_lower rest)%string
    with (String (ascii_of_nat 10) (str_lower rest)).
  rewrite (findall_scan_split (str_lower l) (str_lower rest) (ascii_of_nat 10)
             EmptyString eq_refl).
  rewrite (findall_scan_split (str_lower l) EmptyString (ascii_of_nat 10)
             EmptyString eq_refl).
  simpl. now rewrite app_nil_r.
Qed.

(** Tokenizing a file line by line gives the tokens of its whole text: no
    token spans the end of a line.  (Every line of a file but the last ends
    with the newline character.) *)
Theorem tokenize_file_by_lines (lines : list string) (last : string) :
  Forall (fun line => is_ascii_text line = true) (lines ++ [last]) ->
  tokenize_file (map (fun line => (line ++ newline)%string) lines ++ [last])
  = findall (str_lower
               (lines_text (map (fun line => (line ++ newline)%string) lines
                            ++ [last]))).
Proof.
  intros _. unfold tokenize_file. rewrite tokenize_file_from. simpl.
  induction lines as [| l lines IH]; simpl.
  - now rewrite app_nil_r, string_app_empty_r.
  - rewrite IH. now rewrite findall_line.
Qed.

Lemma tokenize_file_by_lines_witness :
  Forall (fun line => is_ascii_text line = true) (["a b"; "c"] ++ ["d"])
  /\ tokenize_file (map (fun line => (line ++ newline)%string) ["a b"; "c"] ++ ["d"])
     = ["a"; "b"; "c"; "d"].
Proof.
  assert (H : Forall (fun line => is_ascii_text line = true) (["a b"; "c"] ++ ["d"]))
    by (repeat constructor).
  split; [exact H |].
  rewrite (tokenize_file_by_lines ["a b"; "c"] "d" H). reflexivity.
Defined.

Lemma is_token_chars (t : string) :
  is_token t = true ->
  t <> EmptyString
  /\ string_forallb in_token_class t = true
  /\ str_lower t = t.
Proof.
  unfold is_token. intros H. apply andb_true_iff in H. destruct H as [Hne Hall].
  split; [apply String.eqb_neq; now apply negb_true_iff |].
  clear Hne. induction t as [| c t IH]; simpl; [split; reflexivity |].
  simpl in Hall. apply andb_true_iff in Hall. destruct Hall as [Hc Ht].
  apply andb_true_iff in Hc. destruct Hc as [Hc Hu]. apply negb_true_iff in Hu.
  destruct (IH Ht) as [H1 H2].
  rewrite Hc, H1, H2, (lower_char_fixed _ Hu). split; reflexivity.
Qed.

Lemma findall_of_token (t : string) :
  t <> EmptyString -> string_forallb in_token_class t = true ->
  findall_scan EmptyString t = [t].
Proof.
  intros Hne Hall. rewrite (findall_scan_run t EmptyString Hall). simpl.
  destruct t; [contradiction | reflexivity].
Qed.

(** Round trip: the tokens of the text that joins tokens with single spaces
    are these tokens, in their order. *)
Theorem tokenize_joined_tokens (tokens : list string) :
  Forall (fun t => is_token t = true) tokens ->
  tokenize_file [String.concat " " tokens] = tokens.
Proof.
  intros H. unfold tokenize_file. simpl. unfold findall.
  induction tokens as [| t tokens IH]; [reflexivity |].
  inversion H as [| ? ? Ht Hts]; subst.
  destruct (is_token_chars t Ht) as (Hne & Hall & Hlow).
  destruct tokens as [| t' tokens].
  - simpl. rewrite Hlow. now apply findall_of_token.
  - change (String.concat " " (t :: t' :: tokens))
      with (t ++ String " " (String.concat " " (t' :: tokens)))%string.
    rewrite str_lower_app. simpl str_lower at 2. rewrite Hlow.
    change (lower_char " ") with " "%char.
    rewrite (findall_scan_split t _ " "%char EmptyString eq_refl).
    rewrite (findall_of_token t Hne Hall). simpl. f_equal. now apply IH.
Qed.

Lemma tokenize_joined_tokens_witness :
  Forall (fun t => is_token t = true) ["isn't"; "it"; "42"]
  /\ tokenize_file [String.concat " " ["isn't"; "it"; "42"]] = ["isn't"; "it"; "42"].
Proof.
  assert (H : Forall (fun t => is_token t = true) ["isn't"; "it"; "42"])
    by (repeat constructor).
  split; [exact H |]. exact (tokenize_joined_tokens _ H).
Defined.

Example tokenize_file_example :
  tokenize_file ["An input string, this is! (or isn't it?) 123-45"]
  = ["an"; "input"; "string"; "this"; "is"; "or"; "isn't"; "it"; "123"; "45"].
Proof. reflexivity. Qed.

(** ** The report of a counting function *)

Lemma print_frequencies_result (freqs : list Frequency) (out : string) :
  print_frequencies freqs out
  = (map (fun f => snd (token_str f)) freqs,
     (out
      ++ (format_right6 (total_count freqs) ++ " total items" ++ newline)
      ++ (format_right6 (distinct_count freqs) ++ " unique items" ++ newline)
      ++ newline
      ++ lines_text (map frequency_line freqs))%string).
Proof.
  unfold print_frequencies. rewrite print_loop. simpl app.
  rewrite sum_loop, set_of_list_length. unfold write. simpl Z.add.
  now rewrite !string_app_assoc.
Qed.

Lemma token_str_text_subject (f : Frequency) :
  is_text_subject (_token f) = true -> snd (token_str f) = f.
Proof.
  destruct f as [[w | [[| a |] [| b |]]] n]; simpl; try discriminate; reflexivity.
Qed.

Lemma distinct_count_NoDup (s : list Frequency) :
  NoDup s -> distinct_count s = Z.of_nat (List.length s).
Proof. intros H. unfold distinct_count. now rewrite nodup_fixed_point. Qed.

Lemma compute_word_freq_length (tokens : list string) (s : list Frequency) :
  compute_word_freq (Some tokens) = Ok s ->
  List.length s = List.length (nodup string_dec tokens).
Proof.
  intros H.
  destruct (compute_word_freq_spec tokens) as [s' (E & Hnd & Hin & _ & _)].
  rewrite H in E. injection E as <-.
  rewrite <- (length_map SStr (nodup string_dec tokens)).
  apply (distinct_subjects_length s (map SStr (nodup string_dec tokens))).
  - exact Hnd.
  - apply Finite.Injective_map_NoDup; [| apply NoDup_nodup].
    intros a b Hab. now inversion Hab.
  - intros x. rewrite !in_map_iff. split.
    + intros [f [<- Hf]]. apply Hin in Hf. destruct Hf as [t [Ht ->]].
      exists t. split; [reflexivity | now apply nodup_In].
    + intros [t [<- Ht]]. apply nodup_In in Ht.
      exists (mkFrequency (SStr t) (Z.of_nat (count_occ string_dec tokens t))).
      split; [reflexivity |]. apply Hin. eauto.
Qed.

Lemma compute_twogram_freq_length (tokens : list string) (s : list Frequency) :
  compute_twogram_freq (Some tokens) = Ok s ->
  List.length s = List.length (nodup Pair_eq_dec (consecutive_pairs tokens)).
Proof.
  intros H.
  destruct (compute_twogram_freq_spec tokens) as [s' (E & Hnd & Hin & _ & _)].
  rewrite H in E. injection E as <-.
  transitivity (List.length
                  (map STwoGram (nodup Pair_eq_dec (consecutive_pairs tokens))));
    [| apply length_map].
  apply (distinct_subjects_length
           s (map STwoGram (nodup Pair_eq_dec (consecutive_pairs tokens)))).
  - exact Hnd.
  - apply Finite.Injective_map_NoDup; [| apply NoDup_nodup].
    intros a b Hab. now inversion Hab.
  - intros x. rewrite !in_map_iff. split.
    + intros [f [<- Hf]]. apply Hin in Hf. destruct Hf as [g [Hg ->]].
      exists g. split; [reflexivity | now apply nodup_In].
    + intros [g [<- Hg]]. apply nodup_In in Hg.
      exists (mkFrequency
                (STwoGram g)
                (Z.of_nat (count_occ Pair_eq_dec (consecutive_pairs tokens) g))).
      split; [reflexivity |]. apply Hin. eauto.
Qed.

(** The report of the word frequencies of a list of tokens, as [main]
    prints it in mode 1: the total is the number of tokens, the number of
    unique items is the number of different tokens, the lines follow in the
    order of the list, and printing leaves the records as they are. *)
Theorem word_frequency_report (tokens : list string) (s : list Frequency)
  (out : string) :
  compute_word_freq (Some tokens) = Ok s ->
  print_frequencies s out
  = (s,
     (out
      ++ (format_right6 (Z.of_nat (List.length tokens)) ++ " total items" ++ newline)
      ++ (format_right6 (Z.of_nat (List.length (nodup string_dec tokens)))
          ++ " unique items" ++ newline)
      ++ newline
      ++ lines_text (map frequency_line s))%string).
Proof.
  intros H. rewrite print_frequencies_result.
  rewrite <- (compute_word_freq_length tokens s H).
  destruct (compute_word_freq_spec tokens) as [s' (E & Hnd & Hin & Htot & _)].
  rewrite H in E. injection E as <-.
  rewrite Htot, (distinct_count_NoDup s (NoDup_map_inv _token s Hnd)).
  f_equal. rewrite <- (map_id s) at 2. apply map_ext_in.
  intros f Hf. apply token_str_text_subject.
  apply Hin in Hf. destruct Hf as [t [_ ->]]. reflexivity.
Qed.

Lemma word_frequency_report_witness :
  compute_word_freq (Some ["b"; "a"; "b"])
  = Ok [mkFrequency (SStr "b") 2; mkFrequency (SStr "a") 1]
  /\ snd (print_frequencies [mkFrequency (SStr "b") 2; mkFrequency (SStr "a") 1]
                            EmptyString)
     = ("     3 total items" ++ newline
        ++ "     2 unique items" ++ newline
        ++ newline
        ++ "     2 b" ++ newline
        ++ "     1 a" ++ newline)%string.
Proof.
  split; [reflexivity |].
  rewrite (word_frequency_report
             ["b"; "a"; "b"] [mkFrequency (SStr "b") 2; mkFrequency (SStr "a") 1]
             EmptyString eq_refl).
  reflexivity.
Defined.

(** The report of the two-gram frequencies, as [main] prints it in mode 2:
    the total is the number of consecutive pairs (one less than the number
    of tokens, when there is a token), the number of unique items is the
    number of different pairs, and printing leaves the records as they
    are. *)
Theorem twogram_frequency_report (tokens : list string) (s : list Frequency)
  (out : string) :
  compute_twogram_freq (Some tokens) = Ok s ->
  print_frequencies s out
  = (s,
     (out
      ++ (format_right6 (Z.of_nat (List.length tokens - 1)) ++ " total items" ++ newline)
      ++ (format_right6
            (Z.of_nat (List.length (nodup Pair_eq_dec (consecutive_pairs tokens))))
          ++ " unique items" ++ newline)
      ++ newline
      ++ lines_text (map frequency_line s))%string).
Proof.
  intros H. rewrite print_frequencies_result.
  rewrite <- (compute_twogram_freq_length tokens s H).
  destruct (compute_twogram_freq_spec tokens) as [s' (E & Hnd & Hin & Htot & _)].
  rewrite H in E. injection E as <-.
  rewrite Htot, (distinct_count_NoDup s (NoDup_map_inv _token s Hnd)).
  assert (Hlen : List.length (consecutive_pairs tokens) = (List.length tokens - 1)%nat).
  { unfold consecutive_pairs. now rewrite length_map, length_seq. }
  rewrite Hlen.
  f_equal. rewrite <- (map_id s) at 2. apply map_ext_in.
  intros f Hf. apply token_str_text_subject.
  apply Hin in Hf. destruct Hf as [g [Hg ->]].
  unfold consecutive_pairs in Hg. apply in_map_iff in Hg.
  destruct Hg as [i [<- _]]. reflexivity.
Qed.

Lemma twogram_frequency_report_witness :
  compute_twogram_freq (Some ["a"; "b"; "a"; "b"])
  = Ok [mkFrequency (STwoGram (mkPair (VStr "a") (VStr "b"))) 2;
        mkFrequency (STwoGram (mkPair (VStr "b") (VStr "a"))) 1]
  /\ snd (print_frequencies
            [mkFrequency (STwoGram (mkPair (VStr "a") (VStr "b"))) 2;
             mkFrequency (STwoGram (mkPair (VStr "b") (VStr "a"))) 1]
            EmptyString)
     = ("     3 total items" ++ newline
        ++ "     2 unique items" ++ newline
        ++ newline
        ++ "     2 <a:b>" ++ newline
        ++ "     1 <b:a>" ++ newline)%string.
Proof.
  split; [reflexivity |].
  rewrite (twogram_frequency_report
             ["a"; "b"; "a"; "b"]
             [mkFrequency (STwoGram (mkPair (VStr "a") (VStr "b"))) 2;
              mkFrequency (STwoGram (mkPair (VStr "b") (VStr "a"))) 1]
             EmptyString eq_refl).
  reflexivity.
Defined.

(** ** More on [retrieval.py] *)

Lemma fold_left_Zadd (l : list Z) (a : Z) :
  fold_left Z.add l a = a + fold_right Z.add 0 l.
Proof.
  revert a. induction l as [| x l IH]; intros a; simpl; [lia |].
  rewrite IH. lia.
Qed.

Lemma compute_df_length (self : LegoCorpus) (term : string) :
  _compute_df self term
  = Z.of_nat (List.length (documents_with term (docs self))).
Proof.
  unfold _compute_df, documents_with. rewrite fold_left_Zadd.
  induction (docs self) as [| doc l IH]; simpl; [reflexivity |].
  destruct (existsb (String.eqb term) (words doc)); simpl List.length; lia.
Qed.

(** [_compute_df] is the number of documents whose words hold the term: it
    lies between 0 and the number of documents, and it is 0 exactly when no
    document holds the term. *)
Theorem compute_df_counts_documents (self : LegoCorpus) (term : string) :
  _compute_df self term = Z.of_nat (List.length (documents_with term (docs self)))
  /\ 0 <= _compute_df self term <= Z.of_nat (List.length (docs self))
  /\ (_compute_df self term = 0
      <-> forall doc, In doc (docs self) -> ~ In term (words doc)).
Proof.
  rewrite compute_df_length. split; [reflexivity |]. split.
  - pose proof (filter_length_bound
                  (fun doc => existsb (String.eqb term) (words doc)) (docs self)).
    unfold documents_with. lia.
  - unfold documents_with. split.
    + intros H doc Hdoc Hterm.
      assert (Hin : In doc (filter (fun doc => existsb (String.eqb term) (words doc))
                                   (docs self))).
      { apply filter_In. split; [assumption |].
        apply existsb_exists. exists term. split; [assumption | apply String.eqb_refl]. }
      destruct (filter (fun doc => existsb (String.eqb term) (words doc)) (docs self));
        [contradiction | discriminate H].
    + intros H.
      destruct (filter (fun doc => existsb (String.eqb term) (words doc)) (docs self))
        as [| doc l] eqn:E; [reflexivity |].
      exfalso.
      assert (Hin : In doc (filter (fun doc => existsb (String.eqb term) (words doc))
                                   (docs self))) by (rewrite E; now left).
      apply filter_In in Hin. destruct Hin as [Hdoc Hex].
      apply existsb_exists in Hex. destruct Hex as [w [Hw Heq]].
      apply String.eqb_eq in Heq. subst w. exact (H doc Hdoc Hw).
Qed.

(** In a corpus built from Lego sets, the description of a set is the one
    word of its document: the document frequency of a term is the number of
    sets whose whole description is the term. *)
Theorem lego_df_counts_whole_descriptions (self : LegoCorpus)
  (lego_sets : list LegoSet) (term : string) :
  docs self = lego_documents lego_sets ->
  _compute_df self term
  = Z.of_nat (List.length
                (filter (fun l_set => String.eqb term (prod_long_desc l_set))
                        lego_sets)).
Proof.
  intros Hdocs. rewrite compute_df_length, Hdocs.
  unfold documents_with, lego_documents. f_equal. clear Hdocs.
  induction lego_sets as [| l_set l IH]; simpl; [reflexivity |].
  rewrite orb_false_r.
  destruct (String.eqb term (prod_long_desc l_set)); simpl; now rewrite IH.
Qed.

Lemma lego_df_counts_whole_descriptions_witness :
  docs corpus_AB
  = lego_documents
      [mkLegoSet "Airport" 99.5%float 600 "airport with planes" "Easy";
       mkLegoSet "Bakery" 20%float 120 "bakery with bread" "Easy"]
  /\ _compute_df corpus_AB "airport" = 0
  /\ _compute_df corpus_AB "airport with planes" = 1.
Proof.
  assert (H : docs corpus_AB
              = lego_documents
                  [mkLegoSet "Airport" 99.5%float 600 "airport with planes" "Easy";
                   mkLegoSet "Bakery" 20%float 120 "bakery with bread" "Easy"])
    by reflexivity.
  split; [exact H |].
  rewrite !(lego_df_counts_whole_descriptions corpus_AB _ _ H).
  split; reflexivity.
Defined.

Lemma for_each_append_inv {A B : Type} (g : A -> result B)
  (l : list A) (acc v : list B) :
  for_each (fun acc x => y <- g x ;; Ok (acc ++ [y])) l acc = Ok v ->
  exists v', v = acc ++ v' /\ Forall2 (fun x y => g x = Ok y) l v'.
Proof.
  revert acc. induction l as [| x l IH]; intros acc; simpl.
  - intros H. injection H as <-. exists []. rewrite app_nil_r. split; constructor.
  - destruct (g x) as [y | e] eqn:E; cbn [bind]; [| discriminate].
    intros H. destruct (IH _ H) as [v' [-> HF]].
    exists (y :: v'). rewrite <- app_assoc. split; [reflexivity |].
    now constructor.
Qed.

Lemma Forall2_in_right {A B : Type} (R : A -> B -> Prop)
  (l : list A) (v : list B) (y : B) :
  Forall2 R l v -> In y v -> exists x, In x l /\ R x y.
Proof.
  induction 1 as [| x y' l v Hxy HF IH]; simpl; [contradiction |].
  intros [<- | Hy].
  - exists x. auto.
  - destruct (IH Hy) as [x' [Hx' Hr]]. exists x'. auto.
Qed.

(** When [compute_tf_idf_vector] returns, the vector has one entry per term
    of the vocabulary; and in a corpus of at most one document whose
    document-frequency table holds every term of the vocabulary, every entry
    is [None]: no entry is a number. *)
Theorem tf_idf_vector_of_single_document (log10 : float -> float)
  (self : LegoCorpus) (doc : Document) (v : list (option float)) :
  compute_tf_idf_vector log10 self doc = Ok v ->
  List.length v = List.length (_terms self)
  /\ ((List.length (docs self) <= 1)%nat ->
      (forall t, In t (dict_keys (_terms self)) ->
                 dict_contains String.eqb (_dfs self) t = true) ->
      Forall (fun entry => entry = None) v).
Proof.
  unfold compute_tf_idf_vector. intros H.
  apply (for_each_append_inv (fun word => _compute_tf_idf log10 self word doc)) in H.
  destruct H as [v' [-> HF]]. simpl. split.
  - rewrite <- (Forall2_length HF). unfold dict_keys. now rewrite length_map.
  - intros Hlen Hdfs. apply Forall_forall. intros entry Hentry.
    destruct (Forall2_in_right _ _ _ _ HF Hentry) as [t [Ht Hr]].
    destruct entry as [x |]; [| reflexivity].
    exfalso. exact (tf_idf_single_document log10 self t doc x (Hdfs t Ht) Hlen Hr).
Qed.

Lemma tf_idf_vector_of_single_document_witness :
  compute_tf_idf_vector (fun x => x) corpus_A doc_A = Ok [None]
  /\ List.length [@None float] = List.length (_terms corpus_A).
Proof.
  split; [reflexivity |].
  exact (proj1 (tf_idf_vector_of_single_document
                  (fun x => x) corpus_A doc_A [None] eq_refl)).
Defined.

Lemma filter_none {A : Type} (f : A -> bool) (l : list A) :
  (forall x, In x l -> f x = false) -> filter f l = [].
Proof.
  induction l as [| x l IH]; intros H; simpl; [reflexivity |].
  rewrite (H x (or_introl eq_refl)). apply IH. intros y Hy. apply H. now right.
Qed.

Lemma dict_contains_keys (d : list (string * float)) (t : string) :
  dict_contains String.eqb d t = true <-> In t (map fst d).
Proof.
  unfold dict_contains.
  destruct (dict_get String.eqb d t) eqn:E.
  - split; [intros _ | reflexivity].
    destruct (in_dec string_dec t (map fst d)) as [H | H]; [assumption |].
    apply (dict_get_None String.eqb String.eqb_eq) in H. congruence.
  - apply (dict_get_None String.eqb String.eqb_eq) in E.
    split; [discriminate | intros H; contradiction].
Qed.

(** [get_top_k_sets] returns for every [k], and returns documents of the
    corpus whose titles have a score only; it returns no document for
    [k = 0] and for an empty score mapping. *)
Theorem get_top_k_sets_returns_scored_documents (self : LegoCorpus)
  (query_result : list (string * float)) (k : Z) :
  exists r,
    get_top_k_sets self query_result k = Ok r
    /\ (forall d, In d r ->
                  In d (docs self)
                  /\ dict_contains String.eqb query_result (title d) = true)
    /\ get_top_k_sets self query_result 0 = Ok []
    /\ get_top_k_sets self [] k = Ok [].
Proof.
  destruct (sorted_by_score_reverse_spec query_result) as [sa [Hs [Hperm _]]].
  unfold get_top_k_sets. rewrite Hs. cbn [bind].
  eexists. split; [reflexivity |]. split; [| split].
  - intros d Hd. apply filter_In in Hd. destruct Hd as [Hd Ht].
    split; [assumption |].
    apply selected_title in Ht. apply dict_contains_keys.
    destruct (slice_to_prefix sa k) as [n Hn]. rewrite Hn in Ht.
    rewrite <- firstn_map in Ht. apply in_firstn in Ht.
    now apply (Permutation_in _ (Permutation_sym (Permutation_map fst Hperm))).
  - f_equal. apply filter_none. intros d _. reflexivity.
  - simpl. f_equal. apply filter_none. intros d _.
    unfold slice_to. destruct (k <? 0); now rewrite firstn_nil.
Qed.

(** With [k] at least the number of scores, [get_top_k_sets] returns every
    document of the corpus whose title has a score, in the order of the
    corpus. *)
Theorem get_top_k_sets_with_large_k (self : LegoCorpus)
  (query_result : list (string * float)) (k : Z) :
  Z.of_nat (List.length query_result) <= k ->
  get_top_k_sets self query_result k
  = Ok (filter (fun d => dict_contains String.eqb query_result (title d))
               (docs self)).
Proof.
  intros Hk.
  destruct (sorted_by_score_reverse_spec query_result) as [sa [Hs [Hperm _]]].
  unfold get_top_k_sets. rewrite Hs. cbn [bind]. f_equal.
  assert (Hsel : slice_to sa k = sa).
  { unfold slice_to. destruct (k <? 0) eqn:E; [apply Z.ltb_lt in E; lia |].
    apply firstn_all2. rewrite <- (Permutation_length Hperm). lia. }
  rewrite Hsel. apply filter_ext. intros d.
  destruct (dict_contains String.eqb query_result (title d)) eqn:E.
  - apply selected_title. apply dict_contains_keys in E.
    now apply (Permutation_in _ (Permutation_map fst Hperm)).
  - destruct (dict_contains String.eqb (dict_of_pairs sa) (title d)) eqn:E';
      [| reflexivity].
    apply selected_title in E'.
    apply (Permutation_in _ (Permutation_sym (Permutation_map fst Hperm))) in E'.
    apply dict_contains_keys in E'. congruence.
Qed.

Lemma get_top_k_sets_with_large_k_witness :
  Z.of_nat (List.length scores_AB) <= 5
  /\ get_top_k_sets corpus_AB scores_AB 5 = Ok [doc_A; doc_B].
Proof.
  assert (H : Z.of_nat (List.length scores_AB) <= 5) by (simpl; lia).
  split; [exact H |].
  rewrite (get_top_k_sets_with_large_k corpus_AB scores_AB 5 H). reflexivity.
Defined.

(** A negative [k] is not refused: the slice [[:k]] then drops the last
    [-k] of the sorted items, so the call returns what [k' = max(0,
    number of scores + k)] returns. *)
Theorem get_top_k_sets_with_negative_k (self : LegoCorpus)
  (query_result : list (string * float)) (k : Z) :
  k < 0 ->
  get_top_k_sets self query_result k
  = get_top_k_sets self query_result
                   (Z.max 0 (Z.of_nat (List.length query_result) + k)).
Proof.
  intros Hk.
  destruct (sorted_by_score_reverse_spec query_result) as [sa [Hs [Hperm _]]].
  unfold get_top_k_sets. rewrite Hs. cbn [bind].
  assert (Hsel : slice_to sa k
                 = slice_to sa (Z.max 0 (Z.of_nat (List.length query_result) + k))).
  { unfold slice_to.
    assert (E1 : (k <? 0) = true) by now apply Z.ltb_lt.
    assert (E2 : (Z.max 0 (Z.of_nat (List.length query_result) + k) <? 0) = false)
      by (apply Z.ltb_ge; lia).
    rewrite E1, E2, <- (Permutation_length Hperm). f_equal. lia. }
  now rewrite Hsel.
Qed.

Lemma get_top_k_sets_with_negative_k_witness :
  -1 < 0
  /\ get_top_k_sets corpus_AB scores_AB (-1) = Ok [doc_B].
Proof.
  assert (H : -1 < 0) by lia.
  split; [exact H |].
  rewrite (get_top_k_sets_with_negative_k corpus_AB scores_AB (-1) H). reflexivity.
Defined.

(** ** The operator [==] *)






(** ** What [print_frequencies] does to the records *)


